(** * EmailListVerify Python SDK: a shallow embedding and its properties

The repository ships three near-duplicate clients:
- [src/emaillistverify/client.py]   (module [Client] below, built on httpx),
- [emaillistverify.py]              (module [Legacy], built on requests),
- [emaillistverify/__init__.py]     (module [Simple], built on requests).

Python values are modelled as follows.
- [str] is [string]; every character stands for one code point below 256.
- [dict] with string keys is [gmap string _]; a parsed JSON object is an
  association list, looked up by its first matching key.
- A raised exception is the [Raise] result; [EmailListVerifyError] carries
  the message the source builds (the two older modules name the class
  EmailListVerifyException).
- The outside world (HTTP service, clocks, file system) is an oracle
  [Env]; the effects a method performs are appended to a trace of
  [Event]s, threaded through a state-and-error monad.
- Readings of [time.time()] are exact rationals. *)

From Stdlib Require Import ZArith QArith Lia Ascii String.
From stdpp Require Import gmap strings list pretty.

Set Default Proof Using "Type".
#[local] Set Warnings "-register-all".
Open Scope string_scope.
Open Scope list_scope.

(** ** Python string operations *)

Module PyStr.

Definition code (a : ascii) : N := N_of_ascii a.

(** [str.isspace] on one character (code points below 256). *)
Definition isspace (a : ascii) : bool :=
  let n := code a in
  ((9 <=? n) && (n <=? 13) || (28 <=? n) && (n <=? 32)
   || (n =? 133) || (n =? 160))%N.

(** [str.lower] on one character (code points below 256). *)
Definition lower_char (a : ascii) : ascii :=
  let n := code a in
  if ((65 <=? n) && (n <=? 90)
      || (192 <=? n) && (n <=? 222) && negb (n =? 215))%N
  then ascii_of_N (n + 32) else a.

Fixpoint lower (s : string) : string :=
  match s with
  | EmptyString => EmptyString
  | String a s' => String (lower_char a) (lower s')
  end.

(** [c in s] for a one-character [c]. *)
Fixpoint contains (c : ascii) (s : string) : bool :=
  match s with
  | EmptyString => false
  | String a s' => if decide (a = c) then true else contains c s'
  end.

(** [s.split(c)] for a one-character separator: never an empty list. *)
Fixpoint split (c : ascii) (s : string) : list string :=
  match s with
  | EmptyString => [EmptyString]
  | String a s' =>
      if decide (a = c) then EmptyString :: split c s'
      else match split c s' with
           | seg :: segs => String a seg :: segs
           | [] => [String a EmptyString]
           end
  end.

(** [s.lstrip(chars)] with the characters to drop given as a predicate. *)
Fixpoint lstrip_by (p : ascii -> bool) (s : string) : string :=
  match s with
  | EmptyString => EmptyString
  | String a s' => if p a then lstrip_by p s' else s
  end.

Definition rstrip_by (p : ascii -> bool) (s : string) : string :=
  String.rev (lstrip_by p (String.rev s)).

(** [s.strip()]: whitespace removed at both ends. *)
Definition strip (s : string) : string := rstrip_by isspace (lstrip_by isspace s).

Definition is_slash (a : ascii) : bool := bool_decide (a = "/"%char).

(** Truthiness of a [str]: [not s] holds for the empty string only. *)
Definition falsy (s : string) : bool := bool_decide (s = "").

End PyStr.

(** ** Results of Python calls *)

Inductive exn : Type :=
| EmailListVerifyError (msg : string)
| HTTPError (msg : string)
| AttributeError (msg : string)
| IndexError (msg : string)
| ValueError (msg : string)
| OSError (msg : string).

Inductive Result (A : Type) : Type :=
| Ok (a : A)
| Raise (e : exn).
Arguments Ok {A} a.
Arguments Raise {A} e.

(** ** Parsed response bodies *)

(** What [response.json()] can return. *)
Inductive json : Type :=
| JNull
| JBool (b : bool)
| JInt (z : Z)
| JFloat (q : Q)
| JStr (s : string)
| JArr (items : list json)
| JObj (fields : list (string * json)).

(** [d.get(key)] on a parsed object; [None] is Python's [None]. *)
Fixpoint dict_get (key : string) (d : list (string * json)) : option json :=
  match d with
  | [] => None
  | (k, v) :: d' => if decide (k = key) then Some v else dict_get key d'
  end.

(** [v == s] for a value obtained by [.get] and a string literal [s]. *)
Definition eq_str (v : option json) (s : string) : bool :=
  match v with
  | Some (JStr t) => bool_decide (t = s)
  | _ => false
  end.

(** ** The HTTP library, the clocks and the file system *)

(** One entry of a [files=] dictionary: [(filename, fileobj, content_type)]. *)
Record FilePart : Type := {
  part_filename : string;
  part_content : string;
  part_type : string
}.

(** The arguments of one [session.request(...)] / [client.request(...)] call. *)
Record Request : Type := {
  req_method : string;
  req_url : string;
  req_params : gmap string string;
  req_data : option (gmap string string);
  req_files : option (gmap string FilePart);
  req_timeout : option Z
}.

(** A response object, seen through the members the SDK uses:
    [raise_for_status] is [Some msg] when the method raises the library's
    status error (with [str(e) = msg]); [json_body] is [None] when
    [response.json()] raises its decoding error. *)
Record Response : Type := {
  status_code : Z;
  text : string;
  json_body : option json;
  raise_for_status : option string
}.

Inductive HttpOutcome : Type :=
| Responded (r : Response)
| TransportFailure (msg : string).

Record Env : Type := {
  (** reply of the service to the [n]-th request issued *)
  http : nat -> Request -> HttpOutcome;
  (** [n]-th reading of [time.time()], in seconds *)
  clock : nat -> Q;
  (** [n]-th reading of [datetime.now().strftime('%Y%m%d_%H%M%S')] *)
  strftime_now : nat -> string;
  (** [os.path.exists] *)
  path_exists : string -> bool;
  (** content read from a file opened with mode ['rb']; [None]: [open] raises *)
  file_content : string -> option string;
  (** [str(v)] for a parsed value that is not a [str] *)
  py_repr : json -> string
}.

Inductive Event : Type :=
| EvRequest (r : Request)
| EvSleep (seconds : Q)
| EvTime
| EvNow.

(** The effects performed so far, oldest first. *)
Abbreviation World := (list Event).

Definition requests_of (w : World) : list Request :=
  omap (fun e => match e with EvRequest r => Some r | _ => None end) w.

Definition sleeps_of (w : World) : list Q :=
  omap (fun e => match e with EvSleep d => Some d | _ => None end) w.

Definition n_requests (w : World) : nat := length (requests_of w).

Definition n_time (w : World) : nat :=
  length (omap (fun e => match e with EvTime => Some tt | _ => None end) w).

Definition n_now (w : World) : nat :=
  length (omap (fun e => match e with EvNow => Some tt | _ => None end) w).

(** ** State-and-error monad *)

Definition M (A : Type) : Type := World -> Result A * World.

Definition ret {A} (a : A) : M A := fun w => (Ok a, w).

Definition raise {A} (e : exn) : M A := fun w => (Raise e, w).

Definition bind {A B} (m : M A) (k : A -> M B) : M B :=
  fun w => match m w with
           | (Ok a, w') => k a w'
           | (Raise e, w') => (Raise e, w')
           end.

Notation "x <- m ;; k" := (bind m (fun x => k))
  (at level 100, m at next level, right associativity, only parsing).
Notation "m ;;; k" := (bind m (fun _ => k))
  (at level 100, right associativity, only parsing).

(** [try: body / except EmailListVerifyError as e: handler(str(e))] *)
Definition try_except_sdk {A} (body : M A) (handler : string -> M A) : M A :=
  fun w => match body w with
           | (Raise (EmailListVerifyError msg), w') => handler msg w'
           | r => r
           end.

(** [try: body / except httpx.HTTPError as e: handler(str(e))]
    (requests.exceptions.RequestException in the two older modules) *)
Definition try_except_http {A} (body : M A) (handler : string -> M A) : M A :=
  fun w => match body w with
           | (Raise (HTTPError msg), w') => handler msg w'
           | r => r
           end.

(** [while cond: body], where [body] answers [Some v] for [return v].
    The loop answers [Ok None] when the condition turned false, and [None]
    when [fuel] iterations did not end it. *)
Fixpoint while {A} (fuel : nat) (cond : M bool) (body : M (option A)) (w : World)
  : option (Result (option A) * World) :=
  match fuel with
  | O => None
  | S fuel' =>
      match cond w with
      | (Raise e, w1) => Some (Raise e, w1)
      | (Ok false, w1) => Some (Ok None, w1)
      | (Ok true, w1) =>
          match body w1 with
          | (Raise e, w2) => Some (Raise e, w2)
          | (Ok (Some v), w2) => Some (Ok (Some v), w2)
          | (Ok None, w2) => while fuel' cond body w2
          end
      end
  end.

Definition Qltb (a b : Q) : bool := negb (Qle_bool b a).

Section Primitives.
  Context (env : Env).

(** [session.request(...)]: the call is logged, then answered by the service. *)
Definition request (req : Request) : M Response :=
  fun w => match http env (n_requests w) req with
           | Responded r => (Ok r, w ++ [EvRequest req])
           | TransportFailure msg => (Raise (HTTPError msg), w ++ [EvRequest req])
           end.

(** [response.raise_for_status()] *)
Definition check_status (r : Response) : M unit :=
  match raise_for_status r with
  | Some msg => raise (HTTPError msg)
  | None => ret tt
  end.

(** [time.time()] *)
Definition time_time : M Q :=
  fun w => (Ok (clock env (n_time w)), w ++ [EvTime]).

(** [time.sleep(seconds)] *)
Definition time_sleep (seconds : Q) : M unit :=
  fun w => if Qltb seconds 0
           then (Raise (ValueError "sleep length must be non-negative"), w)
           else (Ok tt, w ++ [EvSleep seconds]).

(** [datetime.now().strftime('%Y%m%d_%H%M%S')] *)
Definition now_stamp : M string :=
  fun w => (Ok (strftime_now env (n_now w)), w ++ [EvNow]).

(** [open(path, 'rb')], read by the HTTP library while it sends the form. *)
Definition open_rb (path : string) : M string :=
  match file_content env path with
  | Some bytes => ret bytes
  | None => raise (OSError path)
  end.

(** A parsed value inside an f-string, or under [str(...)]. *)
Definition format_value (v : json) : string :=
  match v with
  | JStr s => s
  | _ => py_repr env v
  end.

End Primitives.

(** ** Further builtins: ISO timestamps, [range] and slices *)

(** [datetime.now().isoformat()]: the rendering of the [n]-th reading of
    [datetime.now()]. *)
Record Calendar : Type := {
  isoformat_now : nat -> string
}.

Definition now_isoformat (cal : Calendar) : M string :=
  fun w => (Ok (isoformat_now cal (n_now w)), w ++ [EvNow]).

(** [len(range(start, stop, step))] for a step that is not zero. *)
Definition range_length (start stop step : Z) : nat :=
  if (0 <? step)%Z then Z.to_nat ((stop - start + step - 1) / step)
  else Z.to_nat ((start - stop - step - 1) / (- step)).

(** [range(start, stop, step)], as the list of its elements. *)
Definition py_range (start stop step : Z) : M (list Z) :=
  if (step =? 0)%Z then raise (ValueError "range() arg 3 must not be zero")
  else ret ((fun k => start + Z.of_nat k * step)%Z <$> seq 0 (range_length start stop step)).

(** [l[i:j]] for bounds that are not negative. *)
Definition py_slice {A} (l : list A) (i j : Z) : list A :=
  take (Z.to_nat (j - i)) (drop (Z.to_nat i) l).

(** ** Method bodies that the modules share word for word

[verify_emails] has the same body in client.py and in
emaillistverify/__init__.py, [wait_for_bulk_completion] the same body in
client.py and in emaillistverify.py. Each calls a method of [self], which
is the parameter here. *)

Module Common.
Section Bodies.
  Context (env : Env).

Section VerifyEmails.
  Context (verify_email : string -> M string).

(** The [for email in emails] loop, started with the dictionary [results]. *)
Fixpoint verify_emails_from (results : gmap string string)
    (emails : list string) (delay : Q) : M (gmap string string) :=
  match emails with
  | [] => ret results
  | email :: rest =>
      results' <-
        try_except_sdk
          (status <- verify_email email ;;
           (if Qltb 0 delay then time_sleep delay else ret tt) ;;;
           ret (<[email := status]> results))
          (fun msg => ret (<[email := "error: " +:+ msg]> results)) ;;
      verify_emails_from results' rest delay
  end.

(** The guard [isinstance(emails, list)] holds by the type of [emails]. *)
Definition verify_emails (emails : list string) (delay : Q)
  : M (gmap string string) :=
  verify_emails_from ∅ emails delay.

End VerifyEmails.

Section WaitForBulkCompletion.
  Context (get_bulk_status : string -> M json).

(** [status.get(key)]: only a [dict] has the method. *)
Definition status_get (status : json) (key : string) : M (option json) :=
  match status with
  | JObj d => ret (dict_get key d)
  | _ => raise (AttributeError "get")
  end.

(** [time.time() - start_time < max_wait] *)
Definition within_bound (start_time : Q) (max_wait : Z) : M bool :=
  now <- time_time env ;;
  ret (Qltb (now - start_time) (inject_Z max_wait)).

(** One run of the loop body. *)
Definition poll_once (file_id : string) (check_interval : Z) : M (option json) :=
  status <- get_bulk_status file_id ;;
  st <- status_get status "status" ;;
  if eq_str st "completed" then ret (Some status)
  else if eq_str st "failed" then
    err <- status_get status "error" ;;
    raise (EmailListVerifyError
             ("Bulk verification failed: "
              +:+ format_value env (default (JStr "Unknown error") err)))
  else
    time_sleep (inject_Z check_interval) ;;;
    ret None.

Definition timeout_message (max_wait : Z) : string :=
  "Timeout waiting for bulk verification (waited " +:+ pretty max_wait +:+ "s)".

Definition wait_for_bulk_completion (fuel : nat) (file_id : string)
    (check_interval max_wait : Z) (w : World)
  : option (Result json * World) :=
  match time_time env w with
  | (Raise e, w0) => Some (Raise e, w0)
  | (Ok start_time, w0) =>
      match while fuel (within_bound start_time max_wait)
                  (poll_once file_id check_interval) w0 with
      | None => None
      | Some (Raise e, w') => Some (Raise e, w')
      | Some (Ok (Some status), w') => Some (Ok status, w')
      | Some (Ok None, w') =>
          Some (Raise (EmailListVerifyError (timeout_message max_wait)), w')
      end
  end.

End WaitForBulkCompletion.

End Bodies.
End Common.

(** ** src/emaillistverify/client.py *)

Module Client.

Definition DEFAULT_BASE_URL : string := "https://apps.emaillistverify.com/api".

Record t : Type := {
  api_key : string;
  base_url : string;
  timeout : Q
}.

(** [__init__] *)
Definition init (key url : string) (seconds : Q) : Result t :=
  if PyStr.falsy key then Raise (EmailListVerifyError "API key is required")
  else Ok {| api_key := key;
             base_url := PyStr.rstrip_by PyStr.is_slash url;
             timeout := seconds |}.

Section Methods.
  Context (env : Env) (self : t).

Definition _url (path : string) : string :=
  base_url self +:+ "/" +:+ PyStr.lstrip_by PyStr.is_slash path.

(** The request [_make_request] hands to the HTTP client. *)
Definition build_request (endpoint method : string)
    (params : option (gmap string string))
    (data : option (gmap string string))
    (files : option (gmap string FilePart)) : Request :=
  let url := _url endpoint in
  let params := <["secret" := api_key self]> (default ∅ params) in
  {| req_method := method; req_url := url; req_params := params;
     req_data := data; req_files := files; req_timeout := None |}.

Definition _make_request (endpoint method : string)
    (params : option (gmap string string))
    (data : option (gmap string string))
    (files : option (gmap string FilePart)) : M json :=
  try_except_http
    (response <- request env (build_request endpoint method params data files) ;;
     if (status_code response =? 401)%Z then
       raise (EmailListVerifyError "Unauthorized: invalid API key")
     else
       check_status response ;;;
       match json_body response with
       | Some v => ret v
       | None => ret (JStr (PyStr.strip (text response)))
       end)
    (fun msg => raise (EmailListVerifyError ("Request failed: " +:+ msg))).

Definition verify_email (email : string) : M string :=
  if PyStr.falsy email then
    raise (EmailListVerifyError "Email address is required")
  else
    result <- _make_request "verifyEmail" "GET" (Some {["email" := email]}) None None ;;
    ret (format_value env result).

Definition verify_emails (emails : list string) (delay : Q)
  : M (gmap string string) :=
  Common.verify_emails verify_email emails delay.

Definition bulk_upload (file_path : string) (filename : option string) : M json :=
  if negb (path_exists env file_path) then
    raise (EmailListVerifyError ("File not found: " +:+ file_path))
  else
    filename <- match filename with
                | Some name => ret name
                | None => stamp <- now_stamp env ;;
                          ret ("bulk_verify_" +:+ stamp +:+ ".csv")
                end ;;
    f <- open_rb env file_path ;;
    result <- _make_request "verifApiFile" "POST"
                (Some {["filename" := filename]}) None
                (Some {["file_contents" :=
                          {| part_filename := filename; part_content := f;
                             part_type := "text/csv" |}]}) ;;
    match result with
    | JStr s => ret (JStr s)
    | JObj d =>
        match dict_get "file_id" d with
        | Some v => ret v
        | None => raise (EmailListVerifyError "Failed to get file ID from response")
        end
    | _ => raise (EmailListVerifyError "Failed to get file ID from response")
    end.

Definition get_bulk_status (file_id : string) : M json :=
  if PyStr.falsy file_id then raise (EmailListVerifyError "File ID is required")
  else _make_request "getApiFileInfo" "GET" (Some {["file_id" := file_id]}) None None.

Definition download_bulk_result (file_id result_type : string) : M json :=
  if PyStr.falsy file_id then raise (EmailListVerifyError "File ID is required")
  else if negb (bool_decide (result_type ∈ ["all"; "clean"])) then
    raise (EmailListVerifyError "result_type must be 'all' or 'clean'")
  else
    let endpoint := if bool_decide (result_type = "all")
                    then "downloadApiFile" else "downloadCleanFile" in
    _make_request endpoint "GET" (Some {["file_id" := file_id]}) None None.

Definition wait_for_bulk_completion (fuel : nat) (file_id : string)
    (check_interval max_wait : Z) : World -> option (Result json * World) :=
  Common.wait_for_bulk_completion env get_bulk_status fuel file_id
    check_interval max_wait.

Definition verify_email_detailed (cal : Calendar) (email : string) : M json :=
  if PyStr.falsy email then
    raise (EmailListVerifyError "Email address is required")
  else
    result <- _make_request "verifyEmailDetailed" "GET" (Some {["email" := email]}) None None ;;
    match result with
    | JStr s =>
        stamp <- now_isoformat cal ;;
        ret (JObj [("email", JStr email); ("status", JStr s); ("timestamp", JStr stamp)])
    | _ => ret result
    end.

Definition get_credits : M json :=
  result <- _make_request "getCredits" "GET" None None None ;;
  match result with
  | JStr s => ret (JObj [("credits", JStr s)])
  | _ => ret result
  end.

End Methods.
End Client.

(** ** emaillistverify.py *)

Module Legacy.

Definition BASE_URL : string := "https://apps.emaillistverify.com/api".

Record t : Type := {
  api_key : string;
  timeout : Z
}.

(** [__init__] *)
Definition init (key : string) (seconds : Z) : Result t :=
  if PyStr.falsy key then Raise (EmailListVerifyError "API key is required")
  else Ok {| api_key := key; timeout := seconds |}.

Section Methods.
  Context (env : Env) (self : t).

(** The request [_make_request] hands to the session. *)
Definition build_request (endpoint method : string)
    (params : option (gmap string string))
    (data : option (gmap string string))
    (files : option (gmap string FilePart)) : Request :=
  let url := BASE_URL +:+ "/" +:+ endpoint in
  let params := <["secret" := api_key self]> (default ∅ params) in
  {| req_method := method; req_url := url; req_params := params;
     req_data := data; req_files := files; req_timeout := Some (timeout self) |}.

Definition _make_request (endpoint method : string)
    (params : option (gmap string string))
    (data : option (gmap string string))
    (files : option (gmap string FilePart)) : M json :=
  try_except_http
    (response <- request env (build_request endpoint method params data files) ;;
     check_status response ;;;
     match json_body response with
     | Some v => ret v
     | None => ret (JStr (text response))
     end)
    (fun msg => raise (EmailListVerifyError ("Request failed: " +:+ msg))).

Definition bulk_upload (file_path : string) (filename : option string) : M json :=
  if negb (path_exists env file_path) then
    raise (EmailListVerifyError ("File not found: " +:+ file_path))
  else
    filename <- match filename with
                | Some name => ret name
                | None => stamp <- now_stamp env ;;
                          ret ("bulk_verify_" +:+ stamp +:+ ".csv")
                end ;;
    f <- open_rb env file_path ;;
    result <- _make_request "verifApiFile" "POST"
                (Some {["filename" := filename]}) None
                (Some {["file_contents" :=
                          {| part_filename := filename; part_content := f;
                             part_type := "text/csv" |}]}) ;;
    match result with
    | JStr s => ret (JStr (PyStr.strip s))
    | JObj d =>
        match dict_get "file_id" d with
        | Some v => ret v
        | None => raise (EmailListVerifyError "Failed to get file ID from response")
        end
    | _ => raise (EmailListVerifyError "Failed to get file ID from response")
    end.

Definition get_bulk_status (file_id : string) : M json :=
  if PyStr.falsy file_id then raise (EmailListVerifyError "File ID is required")
  else _make_request "getApiFileInfo" "GET" (Some {["file_id" := file_id]}) None None.

Definition download_bulk_result (file_id result_type : string) : M json :=
  if PyStr.falsy file_id then raise (EmailListVerifyError "File ID is required")
  else if negb (bool_decide (result_type ∈ ["all"; "clean"])) then
    raise (EmailListVerifyError "result_type must be 'all' or 'clean'")
  else
    let endpoint := if bool_decide (result_type = "all")
                    then "downloadApiFile" else "downloadCleanFile" in
    _make_request endpoint "GET" (Some {["file_id" := file_id]}) None None.

Definition wait_for_bulk_completion (fuel : nat) (file_id : string)
    (check_interval max_wait : Z) : World -> option (Result json * World) :=
  Common.wait_for_bulk_completion env get_bulk_status fuel file_id
    check_interval max_wait.

Definition verify_email (cal : Calendar) (email : string) : M json :=
  if PyStr.falsy email then
    raise (EmailListVerifyError "Email address is required")
  else
    result <- _make_request "verifyEmail" "GET" (Some {["email" := email]}) None None ;;
    match result with
    | JStr s =>
        stamp <- now_isoformat cal ;;
        ret (JObj [("email", JStr email); ("status", JStr (PyStr.strip s));
                   ("timestamp", JStr stamp)])
    | _ => ret result
    end.

Definition verify_email_detailed (email : string) : M json :=
  if PyStr.falsy email then
    raise (EmailListVerifyError "Email address is required")
  else
    _make_request "verifyEmailDetailed" "GET" (Some {["email" := email]}) None None.

Definition get_credits : M json :=
  _make_request "getCredits" "GET" None None None.

(** The record [verify_batch] appends for an email whose verification raised. *)
Definition error_record (email msg stamp : string) : json :=
  JObj [("email", JStr email); ("status", JStr "error"); ("error", JStr msg);
        ("timestamp", JStr stamp)].

(** The [for email in batch] loop of [verify_batch], started with the list
    [results]. The pause of 0.1 s cannot raise, so the result appended just
    before it is never followed by an error record for the same email. *)
Fixpoint verify_batch_items (cal : Calendar) (results : list json)
    (batch : list string) : M (list json) :=
  match batch with
  | [] => ret results
  | email :: rest =>
      results' <-
        try_except_sdk
          (result <- verify_email cal email ;;
           time_sleep (1 # 10) ;;;
           ret (results ++ [result]))
          (fun msg =>
             stamp <- now_isoformat cal ;;
             ret (results ++ [error_record email msg stamp])) ;;
      verify_batch_items cal results' rest
  end.

(** The [for i in range(...)] loop of [verify_batch], over the starts [starts]. *)
Fixpoint verify_batch_from (cal : Calendar) (results : list json) (starts : list Z)
    (emails : list string) (max_batch_size : Z) : M (list json) :=
  match starts with
  | [] => ret results
  | i :: rest =>
      let batch := py_slice emails i (i + max_batch_size) in
      results' <- verify_batch_items cal results batch ;;
      verify_batch_from cal results' rest emails max_batch_size
  end.

Definition verify_batch (cal : Calendar) (emails : list string) (max_batch_size : Z)
  : M (list json) :=
  starts <- py_range 0 (Z.of_nat (length emails)) max_batch_size ;;
  verify_batch_from cal [] starts emails max_batch_size.

End Methods.
End Legacy.

(** ** emaillistverify/__init__.py *)

Module Simple.

Definition BASE_URL : string := "https://apps.emaillistverify.com/api".

Record t : Type := {
  api_key : string;
  timeout : Z
}.

(** [__init__] *)
Definition init (key : string) (seconds : Z) : Result t :=
  if PyStr.falsy key then Raise (EmailListVerifyError "API key is required")
  else Ok {| api_key := key; timeout := seconds |}.

Section Methods.
  Context (env : Env) (self : t).

(** The [session.get(url, params=params, timeout=self.timeout)] call. *)
Definition build_request (email : string) : Request :=
  let url := BASE_URL +:+ "/verifyEmail" in
  let params := <["email" := email]> {["secret" := api_key self]} in
  {| req_method := "GET"; req_url := url; req_params := params;
     req_data := None; req_files := None; req_timeout := Some (timeout self) |}.

Definition verify_email (email : string) : M string :=
  if PyStr.falsy email then
    raise (EmailListVerifyError "Email address is required")
  else
    try_except_http
      (response <- request env (build_request email) ;;
       check_status response ;;;
       ret (PyStr.strip (text response)))
      (fun msg => raise (EmailListVerifyError ("Request failed: " +:+ msg))).

Definition verify_emails (emails : list string) (delay : Q)
  : M (gmap string string) :=
  Common.verify_emails verify_email emails delay.

End Methods.
End Simple.

(** ** Regular expressions, as the [re] module matches them

Only what the pattern of [is_valid_syntax] uses: character classes,
sequence, choice and repetition. Matching is by derivatives; [lang] is the
set of strings an expression stands for. *)

Module Regex.

Inductive t : Type :=
| Never
| Empty
| Char (p : ascii -> bool)
| Cat (r1 r2 : t)
| Alt (r1 r2 : t)
| Star (r : t).

(** [r+] *)
Definition plus (r : t) : t := Cat r (Star r).

Fixpoint nullable (r : t) : bool :=
  match r with
  | Never => false
  | Empty => true
  | Char _ => false
  | Cat r1 r2 => nullable r1 && nullable r2
  | Alt r1 r2 => nullable r1 || nullable r2
  | Star _ => true
  end.

Fixpoint deriv (a : ascii) (r : t) : t :=
  match r with
  | Never => Never
  | Empty => Never
  | Char p => if p a then Empty else Never
  | Cat r1 r2 =>
      if nullable r1 then Alt (Cat (deriv a r1) r2) (deriv a r2)
      else Cat (deriv a r1) r2
  | Alt r1 r2 => Alt (deriv a r1) (deriv a r2)
  | Star r1 => Cat (deriv a r1) (Star r1)
  end.

(** The whole of [s] matches [r]. *)
Fixpoint matches (r : t) (s : string) : bool :=
  match s with
  | EmptyString => nullable r
  | String a s' => matches (deriv a r) s'
  end.

Inductive lang : t -> string -> Prop :=
| lang_empty : lang Empty ""
| lang_char p a : p a = true -> lang (Char p) (String a "")
| lang_cat r1 r2 s1 s2 : lang r1 s1 -> lang r2 s2 -> lang (Cat r1 r2) (s1 +:+ s2)
| lang_alt_l r1 r2 s : lang r1 s -> lang (Alt r1 r2) s
| lang_alt_r r1 r2 s : lang r2 s -> lang (Alt r1 r2) s
| lang_star_nil r : lang (Star r) ""
| lang_star_cons r s1 s2 : lang r s1 -> lang (Star r) s2 -> lang (Star r) (s1 +:+ s2).

End Regex.

(** ** Local heuristics: [EmailValidator] of emaillistverify.py *)

Module EmailValidator.

(** [email.split('@')[1].lower()] when ['@' in email], otherwise [None]. *)
Definition extract_domain (email : string) : Result (option string) :=
  if PyStr.contains "@" email then
    match PyStr.split "@" email !! 1%nat with
    | Some seg => Ok (Some (PyStr.lower seg))
    | None => Raise (IndexError "list index out of range")
    end
  else Ok None.

Definition in_range (lo hi a : ascii) : bool :=
  (PyStr.code lo <=? PyStr.code a)%N && (PyStr.code a <=? PyStr.code hi)%N.

(** [[a-zA-Z]] *)
Definition letter (a : ascii) : bool := in_range "a" "z" a || in_range "A" "Z" a.

(** [[a-zA-Z0-9._%+-]] *)
Definition local_char (a : ascii) : bool :=
  letter a || in_range "0" "9" a
  || bool_decide (a = "."%char) || bool_decide (a = "_"%char)
  || bool_decide (a = "%"%char) || bool_decide (a = "+"%char)
  || bool_decide (a = "-"%char).

(** [[a-zA-Z0-9.-]] *)
Definition domain_char (a : ascii) : bool :=
  letter a || in_range "0" "9" a
  || bool_decide (a = "."%char) || bool_decide (a = "-"%char).

Definition is_char (c a : ascii) : bool := bool_decide (a = c).

Definition newline : ascii := ascii_of_N 10.

(** [[a-zA-Z0-9._%+-]+@[a-zA-Z0-9.-]+\.[a-zA-Z]{2,}], without the anchors. *)
Definition address : Regex.t :=
  Regex.Cat (Regex.plus (Regex.Char local_char))
   (Regex.Cat (Regex.Char (is_char "@"))
     (Regex.Cat (Regex.plus (Regex.Char domain_char))
       (Regex.Cat (Regex.Char (is_char "."))
         (Regex.Cat (Regex.Char letter)
           (Regex.Cat (Regex.Char letter) (Regex.Star (Regex.Char letter))))))).

(** The pattern under [re.match]: [^] is the start of the string, and the
    final [$] is its end or the place just before a newline that ends it. *)
Definition pattern : Regex.t :=
  Regex.Cat address (Regex.Alt Regex.Empty (Regex.Char (is_char newline))).

(** [bool(re.match(pattern, email))] *)
Definition is_valid_syntax (email : string) : bool := Regex.matches pattern email.

Definition disposable_domains : gset string :=
  {[ "tempmail.com"; "throwaway.email"; "guerrillamail.com";
     "mailinator.com"; "10minutemail.com"; "trashmail.com";
     "yopmail.com"; "temp-mail.org"; "fakeinbox.com" ]}.

Definition is_disposable_domain (domain : string) : bool :=
  bool_decide (PyStr.lower domain ∈ disposable_domains).

End EmailValidator.

(** The spec's wording for [extractDomain]: the text after the first ['@']. *)
Fixpoint after_first_at (s : string) : string :=
  match s with
  | EmptyString => EmptyString
  | String a s' => if decide (a = "@"%char) then s' else after_first_at s'
  end.

(** The text up to, and without, the first ['@'] (all of it when there is none). *)
Fixpoint until_at (s : string) : string :=
  match s with
  | EmptyString => EmptyString
  | String a s' => if decide (a = "@"%char) then EmptyString else String a (until_at s')
  end.

(** [s.count(c)] for a one-character [c]. *)
Fixpoint count_char (c : ascii) (s : string) : nat :=
  match s with
  | EmptyString => O
  | String a s' => (if decide (a = c) then 1 else 0) + count_char c s'
  end.

(** Every character of [s] satisfies [p]. *)
Fixpoint all_chars (p : ascii -> bool) (s : string) : bool :=
  match s with
  | EmptyString => true
  | String a s' => p a && all_chars p s'
  end.

(** The last character of [s], when it has one. *)
Fixpoint last_char (s : string) : option ascii :=
  match s with
  | EmptyString => None
  | String a s' => match last_char s' with Some c => Some c | None => Some a end
  end.

(** The first character of [s], when it has one. *)
Definition first_char (s : string) : option ascii :=
  match s with
  | EmptyString => None
  | String a _ => Some a
  end.

(** ** The spec's error taxonomy, read off the messages the code raises *)

Definition Unauthorized : exn := EmailListVerifyError "Unauthorized: invalid API key".

Definition RequestFailed (cause : string) : exn :=
  EmailListVerifyError ("Request failed: " +:+ cause).

Definition FileNotFound (path : string) : exn :=
  EmailListVerifyError ("File not found: " +:+ path).

Definition UploadError : exn :=
  EmailListVerifyError "Failed to get file ID from response".

Definition RemoteFailure (detail : string) : exn :=
  EmailListVerifyError ("Bulk verification failed: " +:+ detail).

Definition Timeout (max_wait : Z) : exn :=
  EmailListVerifyError
    ("Timeout waiting for bulk verification (waited " +:+ pretty max_wait +:+ "s)").

Inductive InvalidInput : exn -> Prop :=
| invalid_email : InvalidInput (EmailListVerifyError "Email address is required")
| invalid_file_id : InvalidInput (EmailListVerifyError "File ID is required")
| invalid_result_type :
    InvalidInput (EmailListVerifyError "result_type must be 'all' or 'clean'").

(** The value an accepted reply [r] yields in client.py and in
    emaillistverify.py: the parsed body, else its text (trimmed in client.py). *)
Definition parsed_by_client (r : Response) : json :=
  default (JStr (PyStr.strip (text r))) (json_body r).

Definition parsed_by_legacy (r : Response) : json :=
  default (JStr (text r)) (json_body r).

(** ** Vocabulary for the polling loop *)

Abbreviation record := (list (string * json)).

Definition is_completed (d : record) : bool := eq_str (dict_get "status" d) "completed".

Definition is_failed (d : record) : bool := eq_str (dict_get "status" d) "failed".

Definition non_terminal (d : record) : bool := negb (is_completed d) && negb (is_failed d).

(** The detail a failed record carries into the error message. *)
Definition failure_detail (env : Env) (d : record) : string :=
  format_value env (default (JStr "Unknown error") (dict_get "error" d)).

(** The loop starts with clock reading number [t0]; its [k]-th test (from 0)
    takes reading number [t0 + 1 + k] and passes when the elapsed time is
    strictly below [max_wait]. *)
Definition within (env : Env) (t0 : nat) (max_wait : Z) (k : nat) : bool :=
  Qltb (clock env (t0 + 1 + k) - clock env t0) (inject_Z max_wait).

(** The service answers the [n]-th request with an accepted JSON object. *)
Definition answers_record (env : Env) (n : nat) (d : record) : Prop :=
  exists r, (forall req, http env n req = Responded r) /\
            status_code r <> 401%Z /\ raise_for_status r = None /\
            json_body r = Some (JObj d).

(** The events of one unfinished round: test, poll, sleep. *)
Definition round (req : Request) (check_interval : Z) : list Event :=
  [EvTime; EvRequest req; EvSleep (inject_Z check_interval)].

Fixpoint rounds (k : nat) (req : Request) (check_interval : Z) : list Event :=
  match k with
  | O => []
  | S k' => round req check_interval ++ rounds k' req check_interval
  end.

(** Poll number [k] (from 0) of a call started in world [w] is made: the test
    of round [k] passes, and so did the tests of the rounds before it, whose
    polls observed a non-terminal status. This is read off the clock and the
    records alone. *)
Definition poll_made (env : Env) (max_wait : Z) (recs : nat -> record)
    (w : World) (k : nat) : Prop :=
  within env (n_time w) max_wait k = true /\
  forall j, (j < k)%nat ->
    within env (n_time w) max_wait j = true /\ non_terminal (recs j) = true.

(** What the specification says of a call of [wait_for_bulk_completion]
    started in world [w], whose [k]-th poll sends [req] and observes [recs k]:
    the call ends; the polls it makes are those that [poll_made] names; it
    returns a record iff one of them observes [completed], and then that
    record; it raises the timeout error iff all of them observe a
    non-terminal status; and one that observes [failed] is its last event and
    makes it raise the remote-failure error. *)
Definition wait_verdict (env : Env) (check_interval max_wait : Z) (req : Request)
    (recs : nat -> record) (w : World) (run : option (Result json * World)) : Prop :=
  exists res w',
    run = Some (res, w') /\
    (forall k, (k < n_requests w' - n_requests w)%nat <-> poll_made env max_wait recs w k) /\
    (forall v, res = Ok v <->
       exists k, poll_made env max_wait recs w k /\
                 is_completed (recs k) = true /\ v = JObj (recs k)) /\
    (res = Raise (Timeout max_wait) <->
       forall k, poll_made env max_wait recs w k -> non_terminal (recs k) = true) /\
    (forall k, poll_made env max_wait recs w k -> is_failed (recs k) = true ->
       res = Raise (RemoteFailure (failure_detail env (recs k))) /\
       w' = w ++ [EvTime] ++ rounds k req check_interval ++ [EvTime; EvRequest req]).

(** The trace of a finished call of [wait_for_bulk_completion]: the first
    clock reading, [k] unfinished rounds, and a last round that is either a
    failed test, answered by the timeout error, or a passed test and a poll
    that observes a terminal status. *)
Definition wait_trace (env : Env) (check_interval max_wait : Z) (req : Request)
    (recs : nat -> record) (w : World) (run : option (Result json * World)) : Prop :=
  exists k res tail,
    run = Some (res, w ++ [EvTime] ++ rounds k req check_interval ++ tail) /\
    (forall i, (i < k)%nat ->
       within env (n_time w) max_wait i = true /\ non_terminal (recs i) = true) /\
    ((within env (n_time w) max_wait k = false /\
      tail = [EvTime] /\
      res = Raise (EmailListVerifyError
                     ("Timeout waiting for bulk verification (waited "
                      +:+ pretty max_wait +:+ "s)")))
     \/
     (within env (n_time w) max_wait k = true /\
      non_terminal (recs k) = false /\
      tail = [EvTime; EvRequest req] /\
      res <> Raise (Timeout max_wait))).

(** [w1] is the world at the [k]-th test of a loop started in [w]. *)
Definition at_test (w : World) (k : nat) (w1 : World) : Prop :=
  n_time w1 = (n_time w + 1 + k)%nat /\ n_requests w1 = (n_requests w + k)%nat.

(** The last round, number [k], of a loop started in [w]: its result and its
    events, by what its test and its poll find. *)
Inductive ending (env : Env) (max_wait : Z) (req : Request) (recs : nat -> record)
    (w : World) (k : nat) : Result json -> list Event -> Prop :=
| end_timeout :
    within env (n_time w) max_wait k = false ->
    ending env max_wait req recs w k (Raise (Timeout max_wait)) [EvTime]
| end_completed :
    within env (n_time w) max_wait k = true ->
    is_completed (recs k) = true ->
    ending env max_wait req recs w k (Ok (JObj (recs k))) [EvTime; EvRequest req]
| end_failed :
    within env (n_time w) max_wait k = true ->
    is_failed (recs k) = true ->
    ending env max_wait req recs w k
      (Raise (RemoteFailure (failure_detail env (recs k)))) [EvTime; EvRequest req].

(** ** Vocabulary for [verify_emails] *)

(** The world after the pause that follows a successful verification. *)
Definition after_pause (delay : Q) (w : World) : World :=
  if Qltb 0 delay then w ++ [EvSleep delay] else w.

(** [processed verify_email delay emails w entries w']: starting in world
    [w], the emails are verified one after the other, each exactly once, and
    the run ends in [w']; [entries] lists, in the same order, what each
    verification leaves for its email: the status, or the error string when
    it raised the SDK's exception. *)
Inductive processed (verify_email : string -> M string) (delay : Q)
  : list string -> World -> list (string * string) -> World -> Prop :=
| processed_nil w :
    processed verify_email delay [] w [] w
| processed_ok email rest w status w1 entries w' :
    verify_email email w = (Ok status, w1) ->
    processed verify_email delay rest (after_pause delay w1) entries w' ->
    processed verify_email delay (email :: rest) w ((email, status) :: entries) w'
| processed_error email rest w msg w1 entries w' :
    verify_email email w = (Raise (EmailListVerifyError msg), w1) ->
    processed verify_email delay rest w1 entries w' ->
    processed verify_email delay (email :: rest) w
      ((email, "error: " +:+ msg) :: entries) w'.

(** The entry of the last occurrence of [email] in [entries]. *)
Fixpoint last_entry (email : string) (entries : list (string * string)) : option string :=
  match entries with
  | [] => None
  | (k, v) :: rest =>
      match last_entry email rest with
      | Some v' => Some v'
      | None => if decide (k = email) then Some v else None
      end
  end.

(** The method raises nothing but the SDK's exception. *)
Definition raises_sdk_only {A} (m : M A) : Prop :=
  forall w, match fst (m w) with
            | Ok _ | Raise (EmailListVerifyError _) => True
            | Raise _ => False
            end.

(** What the specification says of a call of [verify_emails] started in [w]. *)
Definition verify_emails_contract (verify_email : string -> M string)
    (emails : list string) (delay : Q) (w : World)
    (run : Result (gmap string string) * World) : Prop :=
  exists entries results w',
    run = (Ok results, w') /\
    processed verify_email delay emails w entries w' /\
    entries.*1 = emails /\
    forall email, results !! email = last_entry email entries.

(** ** Vocabulary for the secret key *)

(** A request carries the key as its [secret] parameter. *)
Definition carries_secret (key : string) (r : Request) : Prop :=
  req_params r !! "secret" = Some key.

(** From [w] to [w'] the trace only grew, and each request it grew by
    carries the key. *)
Definition grows_signed (key : string) (w w' : World) : Prop :=
  exists new, w' = w ++ new /\ Forall (carries_secret key) (requests_of new).

(** Every request the action issues carries the key. *)
Definition signs {A} (key : string) (m : M A) : Prop :=
  forall w, grows_signed key w (snd (m w)).

(** ** Vocabulary for [verify_batch] *)

(** One pass of [verify_batch] over [emails], from world [w] to world [w']
    and with [results] as its list: [verify_email] is called for each email
    in turn, in the world the emails before it have left; what it returns is
    the result of the email, and a pause of 0.1 s follows; the SDK error it
    raises with message [msg] gives the error record of the email, with that
    message and the reading of the calendar at that moment, and no pause. *)
Inductive batch_run (env : Env) (l : Legacy.t) (cal : Calendar) :
    list string -> World -> list json -> World -> Prop :=
| batch_done w : batch_run env l cal [] w [] w
| batch_verified email rest w v w1 new w' :
    Legacy.verify_email env l cal email w = (Ok v, w1) ->
    batch_run env l cal rest (w1 ++ [EvSleep (1 # 10)]) new w' ->
    batch_run env l cal (email :: rest) w (v :: new) w'
| batch_failed email rest w msg w1 new w' :
    Legacy.verify_email env l cal email w = (Raise (EmailListVerifyError msg), w1) ->
    batch_run env l cal rest (w1 ++ [EvNow]) new w' ->
    batch_run env l cal (email :: rest) w
      (Legacy.error_record email msg (isoformat_now cal (n_now w1)) :: new) w'.

(** ** Sample environments *)

Module Sample.

Definition ok_json (v : json) : Response :=
  {| status_code := 200; text := ""; json_body := Some v; raise_for_status := None |}.

Definition ok_text (body : string) : Response :=
  {| status_code := 200; text := body; json_body := None; raise_for_status := None |}.

Definition unauthorized : Response :=
  {| status_code := 401; text := "";  json_body := None;
     raise_for_status := Some "401 Client Error: Unauthorized for url" |}.

(** The service answers the [n]-th request with the [n]-th entry of
    [replies] and refuses later connections; the [n]-th clock reading is the
    [n]-th entry of [ticks], and [late] once they are used up; the only
    file is [emails.csv]. *)
Definition scripted (replies : list HttpOutcome) (ticks : list Q) (late : Q) : Env :=
  {| http := fun n _ => default (TransportFailure "connection refused") (replies !! n);
     clock := fun n => default late (ticks !! n);
     strftime_now := fun _ => "20240101_120000";
     path_exists := fun p => bool_decide (p = "emails.csv");
     file_content := fun p => if bool_decide (p = "emails.csv")
                              then Some "a@x.com" else None;
     py_repr := fun _ => "<value>" |}.

(** The service answers the [n]-th request with the record [recs n]; the
    [n]-th clock reading is [step * n] seconds. *)
Definition polling (recs : nat -> record) (step : Z) : Env :=
  {| http := fun n _ => Responded (ok_json (JObj (recs n)));
     clock := fun n => inject_Z (step * Z.of_nat n);
     strftime_now := fun _ => "20240101_120000";
     path_exists := fun p => bool_decide (p = "emails.csv");
     file_content := fun p => if bool_decide (p = "emails.csv")
                              then Some "a@x.com" else None;
     py_repr := fun _ => "<value>" |}.

Definition processing : record := [("status", JStr "processing")].
Definition completed : record := [("status", JStr "completed"); ("total", JInt 2)].
Definition failed : record := [("status", JStr "failed"); ("error", JStr "bad file")].

(** One poll still processing, then completed. *)
Definition completes_second (n : nat) : record :=
  match n with O => processing | _ => completed end.

Definition client : Client.t :=
  {| Client.api_key := "KEY"; Client.base_url := Client.DEFAULT_BASE_URL;
     Client.timeout := 30 |}.

Definition legacy : Legacy.t := {| Legacy.api_key := "KEY"; Legacy.timeout := 30 |}.

Definition simple : Simple.t := {| Simple.api_key := "KEY"; Simple.timeout := 30 |}.

End Sample.

(** * Properties *)

Section ExtractDomain.

Lemma split_nonempty c s : PyStr.split c s <> [].
Proof.
  destruct s as [|a s]; simpl; [discriminate|].
  destruct (decide (a = c)); [discriminate|].
  destruct (PyStr.split c s); discriminate.
Qed.

Lemma split_head s : exists tl, PyStr.split "@" s = until_at s :: tl.
Proof.
  induction s as [|a s [tl IH]]; simpl.
  - by exists [].
  - destruct (decide (a = "@"%char)); [by eexists|].
    rewrite IH. by eexists.
Qed.

Lemma split_second s :
  PyStr.contains "@" s = true ->
  PyStr.split "@" s !! 1%nat = Some (until_at (after_first_at s)).
Proof.
  induction s as [|a s IH]; simpl; [discriminate|].
  destruct (decide (a = "@"%char)) as [->|Hne]; intros Hc.
  - destruct (split_head s) as [tl ->]. done.
  - specialize (IH Hc).
    destruct (PyStr.split "@" s) as [|seg segs] eqn:E; [discriminate|].
    exact IH.
Qed.

Lemma until_at_no_at s : PyStr.contains "@" s = false -> until_at s = s.
Proof.
  induction s as [|a s IH]; simpl; [done|].
  destruct (decide (a = "@"%char)); [discriminate|].
  intros H. by rewrite IH.
Qed.

End ExtractDomain.

(** C9: on a string with two ['@'] the code does not return the text after
    the first ['@'], lower-cased, which is ["b.com@c"] here: [split('@')] cuts
    at every ['@'], and index 1 keeps only the segment between the first and
    the second one. *)
Lemma extract_domain_two_ats :
  PyStr.contains "@" "a@B.COM@c" = true /\
  PyStr.lower (after_first_at "a@B.COM@c") = "b.com@c" /\
  EmailValidator.extract_domain "a@B.COM@c" = Ok (Some "b.com") /\
  EmailValidator.extract_domain "a@B.COM@c"
    <> Ok (Some (PyStr.lower (after_first_at "a@B.COM@c"))).
Proof.
  split; [|split; [|split]]; vm_compute; [reflexivity | reflexivity | reflexivity | discriminate].
Qed.

(** On the strings with exactly one ['@'], [extract_domain] returns all the
    text after it, lower-cased; on those without ['@'] it returns [None]. *)
Lemma extract_domain_one_at :
  (forall s, PyStr.contains "@" s = true ->
     PyStr.contains "@" (after_first_at s) = false ->
     EmailValidator.extract_domain s = Ok (Some (PyStr.lower (after_first_at s)))) /\
  (forall s, PyStr.contains "@" s = false -> EmailValidator.extract_domain s = Ok None) /\
  EmailValidator.extract_domain "a@B.COM" = Ok (Some "b.com") /\
  EmailValidator.extract_domain "noAt" = Ok None.
Proof.
  split; [|split; [|split]].
  - intros s Hc Hone. unfold EmailValidator.extract_domain.
    rewrite Hc, (split_second s Hc), (until_at_no_at _ Hone). reflexivity.
  - intros s Hc. unfold EmailValidator.extract_domain. by rewrite Hc.
  - vm_compute; reflexivity.
  - vm_compute; reflexivity.
Qed.

(** ** Bookkeeping on traces *)

Section Traces.

Lemma requests_of_app w1 w2 : requests_of (w1 ++ w2) = requests_of w1 ++ requests_of w2.
Proof. unfold requests_of. apply omap_app. Qed.

Lemma n_requests_app w1 w2 : n_requests (w1 ++ w2) = (n_requests w1 + n_requests w2)%nat.
Proof. unfold n_requests. by rewrite requests_of_app, length_app. Qed.

Lemma n_time_app w1 w2 : n_time (w1 ++ w2) = (n_time w1 + n_time w2)%nat.
Proof. unfold n_time. by rewrite omap_app, length_app. Qed.

Lemma n_now_app w1 w2 : n_now (w1 ++ w2) = (n_now w1 + n_now w2)%nat.
Proof. unfold n_now. by rewrite omap_app, length_app. Qed.

End Traces.

(** ** Upload and download guards *)

(** C5: with a path that does not exist, [bulk_upload] raises the
    file-not-found error at once and leaves the trace untouched: no request
    is issued, in client.py as in emaillistverify.py. *)
Theorem bulk_upload_missing_file env (c : Client.t) (l : Legacy.t)
    (file_path : string) (filename : option string) (w : World) :
  path_exists env file_path = false ->
  Client.bulk_upload env c file_path filename w = (Raise (FileNotFound file_path), w) /\
  Legacy.bulk_upload env l file_path filename w = (Raise (FileNotFound file_path), w).
Proof.
  intros Hmissing.
  unfold Client.bulk_upload, Legacy.bulk_upload. rewrite Hmissing. simpl.
  split; reflexivity.
Qed.

Lemma bulk_upload_missing_file_witness :
  let env := Sample.scripted [] [] 0 in
  Client.bulk_upload env Sample.client "nowhere.csv" None []
    = (Raise (FileNotFound "nowhere.csv"), []) /\
  Legacy.bulk_upload env Sample.legacy "nowhere.csv" None []
    = (Raise (FileNotFound "nowhere.csv"), []).
Proof.
  exact (bulk_upload_missing_file (Sample.scripted [] [] 0) Sample.client Sample.legacy
           "nowhere.csv" None [] eq_refl).
Defined.

(** ** The transport: one logged request per call *)

Ltac unfold_monad :=
  unfold bind, ret, raise, try_except_http, try_except_sdk, request, check_status,
    open_rb, now_stamp in *.

Section Transport.
  Context (env : Env).

Lemma client_make_request_trace (c : Client.t) endpoint method params data files w :
  snd (Client._make_request env c endpoint method params data files w)
  = w ++ [EvRequest (Client.build_request c endpoint method params data files)].
Proof.
  unfold Client._make_request. unfold_monad.
  destruct (http env _ _) as [r|msg]; simpl; [|done].
  destruct (status_code r =? 401)%Z; simpl; [done|].
  destruct (raise_for_status r); simpl; [done|].
  by destruct (json_body r).
Qed.

Lemma legacy_make_request_trace (l : Legacy.t) endpoint method params data files w :
  snd (Legacy._make_request env l endpoint method params data files w)
  = w ++ [EvRequest (Legacy.build_request l endpoint method params data files)].
Proof.
  unfold Legacy._make_request. unfold_monad.
  destruct (http env _ _) as [r|msg]; simpl; [|done].
  destruct (raise_for_status r); simpl; [done|].
  by destruct (json_body r).
Qed.

(** What [_make_request] of client.py answers, by the reply of the service. *)
Lemma client_make_request_result (c : Client.t) endpoint method params data files w :
  fst (Client._make_request env c endpoint method params data files w)
  = match http env (n_requests w)
            (Client.build_request c endpoint method params data files) with
    | TransportFailure cause => Raise (RequestFailed cause)
    | Responded r =>
        if (status_code r =? 401)%Z then Raise Unauthorized
        else match raise_for_status r with
             | Some cause => Raise (RequestFailed cause)
             | None => Ok (default (JStr (PyStr.strip (text r))) (json_body r))
             end
    end.
Proof.
  unfold Client._make_request. unfold_monad.
  destruct (http env _ _) as [r|msg]; simpl; [|done].
  destruct (status_code r =? 401)%Z; simpl; [done|].
  destruct (raise_for_status r); simpl; [done|].
  by destruct (json_body r).
Qed.

(** The same for emaillistverify.py: no case for 401, no trimming. *)
Lemma legacy_make_request_result (l : Legacy.t) endpoint method params data files w :
  fst (Legacy._make_request env l endpoint method params data files w)
  = match http env (n_requests w)
            (Legacy.build_request l endpoint method params data files) with
    | TransportFailure cause => Raise (RequestFailed cause)
    | Responded r =>
        match raise_for_status r with
        | Some cause => Raise (RequestFailed cause)
        | None => Ok (default (JStr (text r)) (json_body r))
        end
    end.
Proof.
  unfold Legacy._make_request. unfold_monad.
  destruct (http env _ _) as [r|msg]; simpl; [|done].
  destruct (raise_for_status r); simpl; [done|].
  by destruct (json_body r).
Qed.

Lemma client_make_request_eq (c : Client.t) endpoint method params data files w :
  Client._make_request env c endpoint method params data files w
  = (fst (Client._make_request env c endpoint method params data files w),
     w ++ [EvRequest (Client.build_request c endpoint method params data files)]).
Proof. rewrite <- client_make_request_trace. by destruct (Client._make_request _ _ _ _ _ _ _ _). Qed.

Lemma legacy_make_request_eq (l : Legacy.t) endpoint method params data files w :
  Legacy._make_request env l endpoint method params data files w
  = (fst (Legacy._make_request env l endpoint method params data files w),
     w ++ [EvRequest (Legacy.build_request l endpoint method params data files)]).
Proof. rewrite <- legacy_make_request_trace. by destruct (Legacy._make_request _ _ _ _ _ _ _ _). Qed.

End Transport.

Lemma falsy_false s : s <> "" -> PyStr.falsy s = false.
Proof. intros H. unfold PyStr.falsy. by apply bool_decide_eq_false. Qed.

(** C7, as stated, fails for the empty file id: with ['all'] no request is
    issued at all. *)
Lemma download_all_empty_file_id :
  let env := Sample.scripted [Responded (Sample.ok_text "email,status")] [] 0 in
  requests_of (snd (Client.download_bulk_result env Sample.client "" "all" [])) = [] /\
  requests_of (snd (Legacy.download_bulk_result env Sample.legacy "" "all" [])) = [].
Proof. split; vm_compute; reflexivity. Qed.

(** C7 (amended): a [result_type] other than ['all'] and ['clean'] is refused
    with an invalid-input error and no request, whatever the file id; an empty
    file id is refused in the same way, whatever the [result_type]; with a
    non-empty file id, ['all'] issues exactly one request, to downloadApiFile,
    and ['clean'] exactly one, to downloadCleanFile. *)
Theorem download_bulk_result_requests env (c : Client.t) (l : Legacy.t)
    (file_id result_type : string) (w : World) :
  (result_type ∉ ["all"; "clean"] ->
     exists e1 e2, InvalidInput e1 /\ InvalidInput e2 /\
       Client.download_bulk_result env c file_id result_type w = (Raise e1, w) /\
       Legacy.download_bulk_result env l file_id result_type w = (Raise e2, w)) /\
  (file_id = "" ->
     Client.download_bulk_result env c file_id result_type w
       = (Raise (EmailListVerifyError "File ID is required"), w) /\
     Legacy.download_bulk_result env l file_id result_type w
       = (Raise (EmailListVerifyError "File ID is required"), w)) /\
  (file_id <> "" ->
     (exists r, snd (Client.download_bulk_result env c file_id "all" w) = w ++ [EvRequest r]
        /\ req_url r = Client.base_url c +:+ "/downloadApiFile"
        /\ req_params r !! "file_id" = Some file_id) /\
     (exists r, snd (Client.download_bulk_result env c file_id "clean" w) = w ++ [EvRequest r]
        /\ req_url r = Client.base_url c +:+ "/downloadCleanFile"
        /\ req_params r !! "file_id" = Some file_id) /\
     (exists r, snd (Legacy.download_bulk_result env l file_id "all" w) = w ++ [EvRequest r]
        /\ req_url r = Legacy.BASE_URL +:+ "/downloadApiFile"
        /\ req_params r !! "file_id" = Some file_id) /\
     (exists r, snd (Legacy.download_bulk_result env l file_id "clean" w) = w ++ [EvRequest r]
        /\ req_url r = Legacy.BASE_URL +:+ "/downloadCleanFile"
        /\ req_params r !! "file_id" = Some file_id)).
Proof.
  split; [|split].
  - intros Hrt. unfold Client.download_bulk_result, Legacy.download_bulk_result.
    rewrite (bool_decide_eq_false_2 _ Hrt). simpl.
    destruct (PyStr.falsy file_id); simpl.
    + exists (EmailListVerifyError "File ID is required"),
             (EmailListVerifyError "File ID is required").
      repeat split; constructor.
    + exists (EmailListVerifyError "result_type must be 'all' or 'clean'"),
             (EmailListVerifyError "result_type must be 'all' or 'clean'").
      repeat split; constructor.
  - intros ->. split; reflexivity.
  - intros Hfid.
    unfold Client.download_bulk_result, Legacy.download_bulk_result.
    rewrite (falsy_false _ Hfid). simpl.
    rewrite !client_make_request_trace, !legacy_make_request_trace.
    repeat split; eexists; (split; [reflexivity|]); split; try reflexivity;
      simpl; rewrite lookup_insert_ne by done; apply lookup_singleton_eq.
Qed.

Lemma download_bulk_result_requests_witness :
  let env := Sample.scripted [Responded (Sample.ok_text "email,status")] [] 0 in
  exists r, snd (Client.download_bulk_result env Sample.client "f-1" "clean" [])
              = [] ++ [EvRequest r]
    /\ req_url r = Client.base_url Sample.client +:+ "/downloadCleanFile"
    /\ req_params r !! "file_id" = Some "f-1".
Proof.
  intros env.
  apply (download_bulk_result_requests env Sample.client Sample.legacy "f-1" "all" []).
  discriminate.
Defined.

(** ** HTTP 401 *)

Lemma unauthorized_not_generic cause : Unauthorized <> RequestFailed cause.
Proof. unfold Unauthorized, RequestFailed. simpl. discriminate. Qed.

(** C4, as stated, fails in emaillistverify.py: its transport has no case for
    401 and reports it through the generic request-failed error. *)
Lemma legacy_401_is_generic :
  let env := Sample.scripted [Responded Sample.unauthorized] [] 0 in
  status_code Sample.unauthorized = 401%Z /\
  fst (Legacy.get_bulk_status env Sample.legacy "f-1" [])
    = Raise (RequestFailed "401 Client Error: Unauthorized for url") /\
  fst (Legacy.get_bulk_status env Sample.legacy "f-1" []) <> Raise Unauthorized.
Proof. split; [|split]; vm_compute; [reflexivity | reflexivity | discriminate]. Qed.

(** C4 (amended): in client.py, when the service answers a request with status
    401, [_make_request] raises the unauthorized error, and so do
    [verify_email], [get_bulk_status], [download_bulk_result] and
    [bulk_upload] once their own argument checks have passed; that error
    differs from every request-failed error, which is what any other status
    refused by [raise_for_status] and any transport failure produce. *)
Theorem unauthorized_is_distinguished env (c : Client.t) (w : World) :
  (forall endpoint method params data files r,
     http env (n_requests w) (Client.build_request c endpoint method params data files)
       = Responded r ->
     status_code r = 401%Z ->
     fst (Client._make_request env c endpoint method params data files w)
       = Raise Unauthorized) /\
  (forall endpoint method params data files r cause,
     http env (n_requests w) (Client.build_request c endpoint method params data files)
       = Responded r ->
     status_code r <> 401%Z ->
     raise_for_status r = Some cause ->
     fst (Client._make_request env c endpoint method params data files w)
       = Raise (RequestFailed cause)) /\
  (forall endpoint method params data files cause,
     http env (n_requests w) (Client.build_request c endpoint method params data files)
       = TransportFailure cause ->
     fst (Client._make_request env c endpoint method params data files w)
       = Raise (RequestFailed cause)) /\
  (forall cause, Unauthorized <> RequestFailed cause) /\
  (forall r, (forall req, http env (n_requests w) req = Responded r) ->
     status_code r = 401%Z ->
     (forall email, email <> "" ->
        fst (Client.verify_email env c email w) = Raise Unauthorized) /\
     (forall file_id, file_id <> "" ->
        fst (Client.get_bulk_status env c file_id w) = Raise Unauthorized) /\
     (forall file_id result_type, file_id <> "" -> result_type ∈ ["all"; "clean"] ->
        fst (Client.download_bulk_result env c file_id result_type w)
          = Raise Unauthorized) /\
     (forall file_path filename bytes,
        path_exists env file_path = true ->
        file_content env file_path = Some bytes ->
        fst (Client.bulk_upload env c file_path filename w) = Raise Unauthorized)).
Proof.
  split; [|split; [|split; [|split]]].
  - intros * Hr H401. rewrite client_make_request_result, Hr.
    by rewrite (proj2 (Z.eqb_eq _ _) H401).
  - intros * Hr Hne Hcause. rewrite client_make_request_result, Hr.
    rewrite (proj2 (Z.eqb_neq _ _) Hne). by rewrite Hcause.
  - intros * Hr. by rewrite client_make_request_result, Hr.
  - exact unauthorized_not_generic.
  - intros r Hr H401.
    assert (Hmr : forall endpoint method params data files w',
               n_requests w' = n_requests w ->
               Client._make_request env c endpoint method params data files w'
               = (Raise Unauthorized,
                  w' ++ [EvRequest (Client.build_request c endpoint method params data files)])).
    { intros * Hn. rewrite client_make_request_eq. f_equal.
      rewrite client_make_request_result, Hn, Hr.
      by rewrite (proj2 (Z.eqb_eq _ _) H401). }
    split; [|split; [|split]].
    + intros email He. unfold Client.verify_email. rewrite (falsy_false _ He).
      unfold bind. by rewrite Hmr.
    + intros file_id Hf. unfold Client.get_bulk_status. rewrite (falsy_false _ Hf).
      by rewrite Hmr.
    + intros file_id result_type Hf Hrt. unfold Client.download_bulk_result.
      rewrite (falsy_false _ Hf), (bool_decide_eq_true_2 _ Hrt). simpl.
      by rewrite Hmr.
    + intros file_path filename bytes Hex Hbytes. unfold Client.bulk_upload.
      rewrite Hex. simpl. unfold_monad. rewrite Hbytes.
      destruct filename as [name|]; simpl.
      * by rewrite Hmr.
      * rewrite Hmr; [done|]. rewrite n_requests_app.
        change (n_requests [EvNow]) with 0%nat. lia.
Qed.

Lemma unauthorized_is_distinguished_witness :
  let env := Sample.scripted [Responded Sample.unauthorized] [] 0 in
  fst (Client.get_bulk_status env Sample.client "f-1" []) = Raise Unauthorized.
Proof.
  intros env.
  apply (proj2 (proj2 (proj2 (proj2
           (unauthorized_is_distinguished env Sample.client []))))
           Sample.unauthorized);
    [intros req; reflexivity | reflexivity | discriminate].
Defined.

(** ** The file id of an upload *)

(** C6, as stated, fails in client.py: a body that parses as a JSON string is
    returned as parsed, with its surrounding blanks. *)
Lemma client_upload_keeps_blanks :
  let env := Sample.scripted [Responded (Sample.ok_json (JStr " f-123 "))] [] 0 in
  fst (Client.bulk_upload env Sample.client "emails.csv" None []) = Ok (JStr " f-123 ") /\
  fst (Client.bulk_upload env Sample.client "emails.csv" None [])
    <> Ok (JStr (PyStr.strip " f-123 ")).
Proof. split; vm_compute; [reflexivity | discriminate]. Qed.

Section Upload.
  Context (env : Env) (w : World) (file_path : string) (filename : option string).
  Context (bytes : string) (r : Response).
  Hypothesis Hexists : path_exists env file_path = true.
  Hypothesis Hbytes : file_content env file_path = Some bytes.
  Hypothesis Hreply : forall req, http env (n_requests w) req = Responded r.
  Hypothesis Hstatus : status_code r <> 401%Z.
  Hypothesis Haccepted : raise_for_status r = None.

Lemma client_bulk_upload_result (c : Client.t) :
  fst (Client.bulk_upload env c file_path filename w)
  = match parsed_by_client r with
    | JStr s => Ok (JStr s)
    | JObj d => match dict_get "file_id" d with
                | Some v => Ok v
                | None => Raise UploadError
                end
    | _ => Raise UploadError
    end.
Proof using All.
  assert (Hmr : forall endpoint method params data files w',
             n_requests w' = n_requests w ->
             Client._make_request env c endpoint method params data files w'
             = (Ok (parsed_by_client r),
                w' ++ [EvRequest (Client.build_request c endpoint method params data files)])).
  { intros * Hn. rewrite client_make_request_eq. f_equal.
    rewrite client_make_request_result, Hn, Hreply.
    by rewrite (proj2 (Z.eqb_neq _ _) Hstatus), Haccepted. }
  unfold Client.bulk_upload. rewrite Hexists. simpl. unfold_monad. rewrite Hbytes.
  destruct filename as [name|]; simpl; rewrite Hmr;
    try (rewrite n_requests_app; change (n_requests [EvNow]) with 0%nat; lia);
    destruct (parsed_by_client r) as [| | | | |items|d]; try done;
    by destruct (dict_get "file_id" d).
Qed.

Lemma legacy_bulk_upload_result (l : Legacy.t) :
  fst (Legacy.bulk_upload env l file_path filename w)
  = match parsed_by_legacy r with
    | JStr s => Ok (JStr (PyStr.strip s))
    | JObj d => match dict_get "file_id" d with
                | Some v => Ok v
                | None => Raise UploadError
                end
    | _ => Raise UploadError
    end.
Proof using All.
  assert (Hmr : forall endpoint method params data files w',
             n_requests w' = n_requests w ->
             Legacy._make_request env l endpoint method params data files w'
             = (Ok (parsed_by_legacy r),
                w' ++ [EvRequest (Legacy.build_request l endpoint method params data files)])).
  { intros * Hn. rewrite legacy_make_request_eq. f_equal.
    rewrite legacy_make_request_result, Hn, Hreply.
    by rewrite Haccepted. }
  unfold Legacy.bulk_upload. rewrite Hexists. simpl. unfold_monad. rewrite Hbytes.
  destruct filename as [name|]; simpl; rewrite Hmr;
    try (rewrite n_requests_app; change (n_requests [EvNow]) with 0%nat; lia);
    destruct (parsed_by_legacy r) as [| | | | |items|d]; try done;
    by destruct (dict_get "file_id" d).
Qed.

End Upload.

(** C6 (amended): for an existing, readable file and an accepted reply of the
    service, [bulk_upload] answers by the shape of the reply.
    - A body that is not JSON: its text, trimmed (both modules).
    - A body that is a JSON string: that string, trimmed in emaillistverify.py
      and as parsed in client.py.
    - A JSON object with a [file_id] field: the value of that field.
    - Anything else: the upload error. *)
Theorem bulk_upload_file_id env (c : Client.t) (l : Legacy.t) (w : World)
    (file_path : string) (filename : option string) (bytes : string) (r : Response) :
  path_exists env file_path = true ->
  file_content env file_path = Some bytes ->
  (forall req, http env (n_requests w) req = Responded r) ->
  status_code r <> 401%Z ->
  raise_for_status r = None ->
  let client_id := fst (Client.bulk_upload env c file_path filename w) in
  let legacy_id := fst (Legacy.bulk_upload env l file_path filename w) in
  (json_body r = None ->
     client_id = Ok (JStr (PyStr.strip (text r))) /\
     legacy_id = Ok (JStr (PyStr.strip (text r)))) /\
  (forall s, json_body r = Some (JStr s) ->
     client_id = Ok (JStr s) /\ legacy_id = Ok (JStr (PyStr.strip s))) /\
  (forall d v, json_body r = Some (JObj d) -> dict_get "file_id" d = Some v ->
     client_id = Ok v /\ legacy_id = Ok v) /\
  (forall v, json_body r = Some v ->
     (forall s, v <> JStr s) ->
     (forall d, v = JObj d -> dict_get "file_id" d = None) ->
     client_id = Raise UploadError /\ legacy_id = Raise UploadError).
Proof.
  intros Hex Hbytes Hreply Hstatus Hacc client_id legacy_id.
  subst client_id legacy_id.
  rewrite (client_bulk_upload_result env w file_path filename bytes r) by assumption.
  rewrite (legacy_bulk_upload_result env w file_path filename bytes r) by assumption.
  unfold parsed_by_client, parsed_by_legacy.
  split; [|split; [|split]].
  - intros ->. done.
  - intros s ->. done.
  - intros d v -> Hv. simpl. by rewrite Hv.
  - intros v -> Hnostr Hnoid. simpl.
    destruct v as [| | | |s|items|d]; try done.
    + by destruct (Hnostr s).
    + by rewrite (Hnoid d eq_refl).
Qed.

Lemma bulk_upload_file_id_witness :
  let env := Sample.scripted [Responded (Sample.ok_json (JObj [("file_id", JStr "f-123")]))] [] 0 in
  fst (Client.bulk_upload env Sample.client "emails.csv" None []) = Ok (JStr "f-123") /\
  fst (Legacy.bulk_upload env Sample.legacy "emails.csv" None []) = Ok (JStr "f-123").
Proof.
  intros env.
  refine (proj1 (proj2 (proj2
            (bulk_upload_file_id env Sample.client Sample.legacy [] "emails.csv" None
               "a@x.com" (Sample.ok_json (JObj [("file_id", JStr "f-123")]))
               eq_refl eq_refl (fun _ => eq_refl) _ eq_refl)))
            [("file_id", JStr "f-123")] (JStr "f-123") eq_refl eq_refl).
  discriminate.
Defined.

(** ** The polling loop *)

Lemma Qltb_false a b : Qltb a b = false <-> (b <= a)%Q.
Proof.
  unfold Qltb. rewrite negb_false_iff. apply Qle_bool_iff.
Qed.

Lemma Qltb_true a b : Qltb a b = true <-> (a < b)%Q.
Proof.
  unfold Qltb. rewrite negb_true_iff. split.
  - intros H. apply Qnot_le_lt. intros Hle. apply Qle_bool_iff in Hle. congruence.
  - intros H. destruct (Qle_bool b a) eqn:E; [|done].
    apply Qle_bool_iff in E. exfalso. by apply (Qlt_not_le _ _ H).
Qed.

Lemma sleep_nonnegative (ci : Z) (w : World) :
  (0 <= ci)%Z -> time_sleep (inject_Z ci) w = (Ok tt, w ++ [EvSleep (inject_Z ci)]).
Proof.
  intros Hci. unfold time_sleep.
  assert (Qltb (inject_Z ci) 0 = false) as ->; [|done].
  apply Qltb_false. change 0%Q with (inject_Z 0). by rewrite <- Zle_Qle.
Qed.

(** A boolean property that holds at [K] has a least index at which it holds. *)
Lemma least_index (P : nat -> bool) (K : nat) :
  P K = true ->
  exists k, (k <= K)%nat /\ P k = true /\ forall i, (i < k)%nat -> P i = false.
Proof.
  assert (Hscan : forall n,
            (exists k, (k < n)%nat /\ P k = true /\ forall i, (i < k)%nat -> P i = false)
            \/ (forall i, (i < n)%nat -> P i = false)).
  { induction n as [|n [(k & Hk & HP & Hleast)|Hnone]].
    - right. intros i Hi. lia.
    - left. exists k. split; [lia|done].
    - destruct (P n) eqn:E.
      + left. exists n. split; [lia|done].
      + right. intros i Hi. destruct (decide (i = n)) as [->|]; [done|].
        apply Hnone. lia. }
  intros HK. destruct (Hscan (S K)) as [(k & Hk & HP & Hleast)|Hnone].
  - exists k. split; [lia|done].
  - rewrite Hnone in HK by lia. discriminate.
Qed.

Lemma completed_not_failed d : is_completed d = true -> is_failed d = false.
Proof.
  unfold is_completed, is_failed, eq_str.
  destruct (dict_get "status" d) as [[]|]; try done.
  intros H%bool_decide_eq_true. by subst.
Qed.

Lemma n_requests_rounds k req ci : n_requests (rounds k req ci) = k.
Proof.
  induction k as [|k IH]; [done|].
  change (rounds (S k) req ci) with (round req ci ++ rounds k req ci).
  rewrite n_requests_app, IH. done.
Qed.

Lemma n_time_rounds k req ci : n_time (rounds k req ci) = k.
Proof.
  induction k as [|k IH]; [done|].
  change (rounds (S k) req ci) with (round req ci ++ rounds k req ci).
  rewrite n_time_app, IH. done.
Qed.

Lemma timeout_not_failure mw detail : Timeout mw <> RemoteFailure detail.
Proof. unfold Timeout, RemoteFailure. simpl. discriminate. Qed.

Lemma while_S {A} fuel (cond : M bool) (body : M (option A)) w :
  while (S fuel) cond body w
  = match cond w with
    | (Raise e, w1) => Some (Raise e, w1)
    | (Ok false, w1) => Some (Ok None, w1)
    | (Ok true, w1) =>
        match body w1 with
        | (Raise e, w2) => Some (Raise e, w2)
        | (Ok (Some v), w2) => Some (Ok (Some v), w2)
        | (Ok None, w2) => while fuel cond body w2
        end
    end.
Proof. reflexivity. Qed.

Section WaitLoop.
  Context (env : Env) (get_bulk_status : string -> M json).
  Context (file_id : string) (check_interval max_wait : Z).
  Context (req : Request) (recs : nat -> record) (w : World).

Hypothesis Hinterval : (0 <= check_interval)%Z.
Hypothesis Hpoll : forall k w1,
  n_requests w1 = (n_requests w + k)%nat ->
  get_bulk_status file_id w1 = (Ok (JObj (recs k)), w1 ++ [EvRequest req]).

Let cond := Common.within_bound env (clock env (n_time w)) max_wait.
Let body := Common.poll_once env get_bulk_status file_id check_interval.
Let inb := within env (n_time w) max_wait.

Lemma cond_at k w1 : at_test w k w1 -> cond w1 = (Ok (inb k), w1 ++ [EvTime]).
Proof using Type.
  intros [Ht _]. unfold cond, Common.within_bound, time_time, inb, within.
  unfold bind, ret. by rewrite Ht.
Qed.

Lemma test_requests k w1 : at_test w k w1 -> n_requests (w1 ++ [EvTime]) = (n_requests w + k)%nat.
Proof using Type.
  intros [_ Hr]. rewrite n_requests_app, Hr. change (n_requests [EvTime]) with 0%nat. lia.
Qed.

Lemma body_completed k w1 :
  at_test w k w1 -> is_completed (recs k) = true ->
  body (w1 ++ [EvTime]) = (Ok (Some (JObj (recs k))), w1 ++ [EvTime; EvRequest req]).
Proof using Hpoll.
  intros Hat Hc. unfold body, Common.poll_once, bind.
  rewrite (Hpoll k) by (by eapply test_requests). simpl.
  unfold is_completed in Hc. rewrite Hc. unfold ret.
  by rewrite <- app_assoc.
Qed.

Lemma body_failed k w1 :
  at_test w k w1 -> is_failed (recs k) = true ->
  body (w1 ++ [EvTime])
  = (Raise (RemoteFailure (failure_detail env (recs k))), w1 ++ [EvTime; EvRequest req]).
Proof using Hpoll.
  intros Hat Hf. unfold body, Common.poll_once, bind.
  rewrite (Hpoll k) by (by eapply test_requests). simpl.
  destruct (eq_str (dict_get "status" (recs k)) "completed") eqn:Hc.
  { apply completed_not_failed in Hc. congruence. }
  unfold is_failed in Hf. rewrite Hf. unfold ret, raise.
  by rewrite <- app_assoc.
Qed.

Lemma body_continue k w1 :
  at_test w k w1 -> non_terminal (recs k) = true ->
  body (w1 ++ [EvTime]) = (Ok None, w1 ++ round req check_interval).
Proof using Hpoll Hinterval.
  intros Hat Hn. unfold body, Common.poll_once, bind.
  rewrite (Hpoll k) by (by eapply test_requests). simpl.
  unfold non_terminal, is_completed, is_failed in Hn.
  apply andb_true_iff in Hn as [Hc%negb_true_iff Hf%negb_true_iff].
  rewrite Hc, Hf, sleep_nonnegative by done. unfold ret, round.
  by rewrite <- !app_assoc.
Qed.

Lemma at_test_round k w1 : at_test w k w1 -> at_test w (S k) (w1 ++ round req check_interval).
Proof using Type.
  intros [Ht Hr]. split.
  - rewrite n_time_app, Ht. change (n_time (round req check_interval)) with 1%nat. lia.
  - rewrite n_requests_app, Hr.
    change (n_requests (round req check_interval)) with 1%nat. lia.
Qed.

(** [k] unfinished rounds use up [k] units of fuel and add [rounds k]. *)
Lemma while_rounds k : forall j w1 fuel,
  at_test w j w1 ->
  (forall i, (i < k)%nat -> inb (j + i) = true /\ non_terminal (recs (j + i)) = true) ->
  while (k + fuel) cond body w1
  = while fuel cond body (w1 ++ rounds k req check_interval).
Proof using Hpoll Hinterval.
  induction k as [|k IH]; intros j w1 fuel Hat Hall.
  - simpl. by rewrite app_nil_r.
  - destruct (Hall 0%nat ltac:(lia)) as [Hin Hnt]. rewrite Nat.add_0_r in Hin, Hnt.
    change (S k + fuel)%nat with (S (k + fuel)). rewrite while_S.
    rewrite (cond_at j w1 Hat), Hin, (body_continue j w1 Hat Hnt).
    rewrite (IH (S j) _ fuel (at_test_round j w1 Hat)).
    + simpl rounds. by rewrite <- app_assoc.
    + intros i Hi. replace (S j + i)%nat with (j + S i)%nat by lia.
      apply Hall. lia.
Qed.

Lemma at_test_start : at_test w 0 (w ++ [EvTime]).
Proof using Type.
  split.
  - rewrite n_time_app. change (n_time [EvTime]) with 1%nat. lia.
  - rewrite n_requests_app. change (n_requests [EvTime]) with 0%nat. lia.
Qed.

Lemma at_test_rounds k : at_test w k (w ++ [EvTime] ++ rounds k req check_interval).
Proof using Type.
  split.
  - rewrite !n_time_app, n_time_rounds. change (n_time [EvTime]) with 1%nat. lia.
  - rewrite !n_requests_app, n_requests_rounds.
    change (n_requests [EvTime]) with 0%nat. lia.
Qed.

(** The whole run, when the loop stops in round [k]. *)
Lemma wait_run k res tail fuel :
  (forall i, (i < k)%nat -> inb i = true /\ non_terminal (recs i) = true) ->
  ending env max_wait req recs w k res tail ->
  (k < fuel)%nat ->
  Common.wait_for_bulk_completion env get_bulk_status fuel file_id
    check_interval max_wait w
  = Some (res, w ++ [EvTime] ++ rounds k req check_interval ++ tail).
Proof using Hpoll Hinterval.
  intros Hall Hend Hfuel.
  unfold Common.wait_for_bulk_completion, time_time.
  fold cond. fold body.
  replace fuel with (k + S (fuel - S k))%nat by lia.
  rewrite (while_rounds k 0%nat (w ++ [EvTime]) _ at_test_start Hall).
  pose proof (at_test_rounds k) as Hat. rewrite app_assoc in Hat.
  rewrite while_S, (cond_at k _ Hat).
  rewrite !app_assoc. unfold inb.
  destruct Hend as [Hout | Hin Hc | Hin Hf].
  - rewrite Hout. reflexivity.
  - rewrite Hin, (body_completed k _ Hat Hc). by rewrite <- !app_assoc.
  - rewrite Hin, (body_failed k _ Hat Hf). by rewrite <- !app_assoc.
Qed.

(** When some round meets a failed test or a terminal record, the loop has a
    first round in which it stops. *)
Lemma stopping_round K :
  inb K && non_terminal (recs K) = false ->
  exists k res tail,
    (k <= K)%nat /\
    (forall i, (i < k)%nat -> inb i = true /\ non_terminal (recs i) = true) /\
    ending env max_wait req recs w k res tail.
Proof using Type.
  intros Hout.
  destruct (least_index (fun i => negb (inb i && non_terminal (recs i))) K)
    as (k & Hk & Hstop & Hleast).
  { by rewrite Hout. }
  assert (Hall : forall i, (i < k)%nat -> inb i = true /\ non_terminal (recs i) = true).
  { intros i Hi. apply andb_true_iff, negb_false_iff. by apply Hleast. }
  apply negb_true_iff in Hstop.
  destruct (inb k) eqn:Hin.
  - simpl in Hstop. unfold non_terminal in Hstop.
    destruct (is_completed (recs k)) eqn:Hc.
    + exists k, (Ok (JObj (recs k))), [EvTime; EvRequest req].
      split; [done|]. split; [done|]. by constructor.
    + destruct (is_failed (recs k)) eqn:Hf; [|done].
      exists k, (Raise (RemoteFailure (failure_detail env (recs k)))),
        [EvTime; EvRequest req].
      split; [done|]. split; [done|]. by constructor.
  - exists k, (Raise (Timeout max_wait)), [EvTime].
    split; [done|]. split; [done|]. by constructor.
Qed.

Lemma made_requests k tail :
  (n_requests (w ++ [EvTime] ++ rounds k req check_interval ++ tail) - n_requests w)%nat
  = (k + n_requests tail)%nat.
Proof using Type.
  rewrite !n_requests_app, n_requests_rounds.
  change (n_requests [EvTime]) with 0%nat. lia.
Qed.

(** The polls that are made are those before the round in which the loop
    stops, and that of this round when its test passes. *)
Lemma poll_made_iff k res tail j :
  (forall i, (i < k)%nat -> inb i = true /\ non_terminal (recs i) = true) ->
  ending env max_wait req recs w k res tail ->
  poll_made env max_wait recs w j <-> (j < k + n_requests tail)%nat.
Proof using Type.
  intros Hall Hend. unfold poll_made. fold inb. split.
  - intros [Hj Hbefore].
    destruct (decide (j < k)%nat) as [|Hge]; [lia|].
    assert (Hk : (k < j)%nat -> inb k = true /\ non_terminal (recs k) = true)
      by (intros; by apply Hbefore).
    destruct Hend as [Hstop | Hin Hc | Hin Hf].
    + exfalso. destruct (decide (j = k)) as [->|]; [unfold inb in *; congruence|].
      destruct Hk as [Hk _]; [lia|]. unfold inb in *. congruence.
    + change (n_requests [EvTime; EvRequest req]) with 1%nat.
      destruct (decide (j = k)) as [->|]; [lia|]. exfalso.
      destruct Hk as [_ Hk]; [lia|]. unfold non_terminal in Hk.
      rewrite Hc in Hk. discriminate.
    + change (n_requests [EvTime; EvRequest req]) with 1%nat.
      destruct (decide (j = k)) as [->|]; [lia|]. exfalso.
      destruct Hk as [_ Hk]; [lia|]. unfold non_terminal in Hk.
      rewrite Hf, andb_false_r in Hk. discriminate.
  - intros Hj.
    assert (Hbefore : forall i, (i < j)%nat -> (j <= k)%nat ->
              inb i = true /\ non_terminal (recs i) = true)
      by (intros i Hi Hjk; apply Hall; lia).
    destruct Hend as [Hstop | Hin Hc | Hin Hf].
    + change (n_requests [EvTime]) with 0%nat in Hj.
      split; [apply Hall; lia|]. intros i Hi. apply Hbefore; lia.
    + change (n_requests [EvTime; EvRequest req]) with 1%nat in Hj.
      split; [|intros i Hi; apply Hbefore; lia].
      destruct (decide (j = k)) as [->|]; [done|]. apply Hall. lia.
    + change (n_requests [EvTime; EvRequest req]) with 1%nat in Hj.
      split; [|intros i Hi; apply Hbefore; lia].
      destruct (decide (j = k)) as [->|]; [done|]. apply Hall. lia.
Qed.

(** The verdict holds for a loop that has a round in which it must stop. *)
Lemma wait_verdict_holds K fuel :
  inb K && non_terminal (recs K) = false ->
  (K < fuel)%nat ->
  wait_verdict env check_interval max_wait req recs w
    (Common.wait_for_bulk_completion env get_bulk_status fuel file_id
       check_interval max_wait w).
Proof using Hpoll Hinterval.
  intros Hout Hfuel.
  destruct (stopping_round K Hout) as (k & res & tail & Hk & Hall & Hend).
  exists res, (w ++ [EvTime] ++ rounds k req check_interval ++ tail).
  split; [apply wait_run; [done|done|lia]|].
  rewrite made_requests.
  pose proof (fun j => poll_made_iff k res tail j Hall Hend) as Hmade.
  assert (Hnt : forall i, (i < k)%nat ->
            is_completed (recs i) = false /\ is_failed (recs i) = false).
  { intros i Hi. destruct (Hall i Hi) as [_ Hn]. unfold non_terminal in Hn.
    apply andb_true_iff in Hn as [Hc%negb_true_iff Hf%negb_true_iff]. done. }
  split; [intros j; symmetry; apply Hmade|].
  destruct Hend as [Hstop | Hin Hc | Hin Hf].
  - change (n_requests [EvTime]) with 0%nat in Hmade.
    split; [|split].
    + intros v. split; [discriminate|].
      intros (j & Hj%Hmade & Hcj & _). destruct (Hnt j ltac:(lia)). congruence.
    + split; [|done]. intros _ j Hj%Hmade. apply Hall. lia.
    + intros j Hj%Hmade Hfj. destruct (Hnt j ltac:(lia)). congruence.
  - change (n_requests [EvTime; EvRequest req]) with 1%nat in Hmade.
    assert (Hk_made : poll_made env max_wait recs w k) by (apply Hmade; lia).
    split; [|split].
    + intros v. split.
      * intros [= <-]. by exists k.
      * intros (j & Hj%Hmade & Hcj & ->).
        destruct (decide (j = k)) as [->|]; [done|].
        destruct (Hnt j ltac:(lia)). congruence.
    + split; [discriminate|]. intros Hn. specialize (Hn k Hk_made).
      unfold non_terminal in Hn. rewrite Hc in Hn. discriminate.
    + intros j Hj%Hmade Hfj. destruct (decide (j = k)) as [->|].
      * apply completed_not_failed in Hc. congruence.
      * destruct (Hnt j ltac:(lia)). congruence.
  - change (n_requests [EvTime; EvRequest req]) with 1%nat in Hmade.
    assert (Hk_made : poll_made env max_wait recs w k) by (apply Hmade; lia).
    assert (Hc : is_completed (recs k) = false).
    { destruct (is_completed (recs k)) eqn:E; [|done].
      apply completed_not_failed in E. congruence. }
    split; [|split].
    + intros v. split; [discriminate|].
      intros (j & Hj%Hmade & Hcj & _).
      destruct (decide (j = k)) as [->|]; [congruence|].
      destruct (Hnt j ltac:(lia)). congruence.
    + split.
      * intros Heq. exfalso.
        apply (timeout_not_failure max_wait (failure_detail env (recs k))).
        congruence.
      * intros Hn. specialize (Hn k Hk_made).
        unfold non_terminal in Hn. rewrite Hf, andb_false_r in Hn. discriminate.
    + intros j Hj%Hmade Hfj. destruct (decide (j = k)) as [->|]; [done|].
      destruct (Hnt j ltac:(lia)). congruence.
Qed.

Lemma wait_trace_holds K fuel :
  inb K && non_terminal (recs K) = false ->
  (K < fuel)%nat ->
  wait_trace env check_interval max_wait req recs w
    (Common.wait_for_bulk_completion env get_bulk_status fuel file_id
       check_interval max_wait w).
Proof using Hpoll Hinterval.
  intros Hout Hfuel.
  destruct (stopping_round K Hout) as (k & res & tail & Hk & Hall & Hend).
  exists k, res, tail.
  split; [apply wait_run; [done|done|lia]|]. split; [done|].
  destruct Hend as [Hstop | Hin Hc | Hin Hf].
  - left. done.
  - right. split; [done|]. split; [|split; [done|discriminate]].
    unfold non_terminal. by rewrite Hc.
  - right. split; [done|]. split; [|split; [done|]].
    + unfold non_terminal. by rewrite Hf, andb_false_r.
    + intros Heq.
      apply (timeout_not_failure max_wait (failure_detail env (recs k))).
      congruence.
Qed.

End WaitLoop.

(** The polls of client.py and of emaillistverify.py, against a service that
    answers each of them with a record. *)
Section Polls.
  Context (env : Env) (file_id : string) (recs : nat -> record) (w : World).
  Hypothesis Hfile : file_id <> "".
  Hypothesis Hrecs : forall k, answers_record env (n_requests w + k) (recs k).

Lemma client_poll (c : Client.t) k w1 :
  n_requests w1 = (n_requests w + k)%nat ->
  Client.get_bulk_status env c file_id w1
  = (Ok (JObj (recs k)),
     w1 ++ [EvRequest (Client.build_request c "getApiFileInfo" "GET"
                         (Some {["file_id" := file_id]}) None None)]).
Proof using Hfile Hrecs.
  intros Hn. unfold Client.get_bulk_status. rewrite (falsy_false _ Hfile).
  rewrite client_make_request_eq. f_equal.
  rewrite client_make_request_result, Hn.
  destruct (Hrecs k) as (r & Hr & H401 & Hacc & Hbody).
  by rewrite Hr, (proj2 (Z.eqb_neq _ _) H401), Hacc, Hbody.
Qed.

Lemma legacy_poll (l : Legacy.t) k w1 :
  n_requests w1 = (n_requests w + k)%nat ->
  Legacy.get_bulk_status env l file_id w1
  = (Ok (JObj (recs k)),
     w1 ++ [EvRequest (Legacy.build_request l "getApiFileInfo" "GET"
                         (Some {["file_id" := file_id]}) None None)]).
Proof using Hfile Hrecs.
  intros Hn. unfold Legacy.get_bulk_status. rewrite (falsy_false _ Hfile).
  rewrite legacy_make_request_eq. f_equal.
  rewrite legacy_make_request_result, Hn.
  destruct (Hrecs k) as (r & Hr & H401 & Hacc & Hbody).
  by rewrite Hr, Hacc, Hbody.
Qed.

End Polls.

(** C1, as stated for every file id, fails for the empty one: the status call
    refuses it before any request, so the loop ends with that error, although
    time is left and the service would answer [processing] to every poll. The
    call neither returns nor raises the timeout error, and the verdict of C1
    does not hold of it. *)
Lemma wait_empty_file_id_is_not_timeout :
  let env := Sample.polling (fun _ => Sample.processing) 10 in
  let req := Client.build_request Sample.client "getApiFileInfo" "GET"
               (Some {["file_id" := ""]}) None None in
  let run := Client.wait_for_bulk_completion env Sample.client 1 "" 10 3600 [] in
  (forall k, answers_record env (n_requests [] + k) Sample.processing) /\
  within env (n_time []) 3600 0 = true /\
  run = Some (Raise (EmailListVerifyError "File ID is required"), [EvTime; EvTime]) /\
  Legacy.wait_for_bulk_completion env Sample.legacy 1 "" 10 3600 [] = run /\
  ~ wait_verdict env 10 3600 req (fun _ => Sample.processing) [] run.
Proof.
  intros env req run.
  assert (Hrun : run = Some (Raise (EmailListVerifyError "File ID is required"),
                             [EvTime; EvTime])) by (vm_compute; reflexivity).
  split; [|split; [|split; [|split]]].
  - intros k. exists (Sample.ok_json (JObj Sample.processing)).
    split; [intros r; reflexivity|]. split; [discriminate|]. split; reflexivity.
  - vm_compute. reflexivity.
  - exact Hrun.
  - rewrite Hrun. vm_compute. reflexivity.
  - intros (res & w' & Heq & _ & _ & [_ Htimeout] & _).
    rewrite Hrun in Heq. injection Heq as <- <-.
    discriminate Htimeout. intros k _. reflexivity.
Qed.

(** C1 (amended): take a non-empty file id, a non-negative interval, a service
    that answers the [k]-th poll with the record [recs k], and a round [K] in
    which the clock has reached the bound or the record is terminal. Then
    [wait_for_bulk_completion] ends, in client.py as in emaillistverify.py, and
    - the polls it makes are exactly those made strictly within [max_wait] of
      its start, after polls that observed a non-terminal status,
    - it returns a record iff one of these polls observes [completed], and the
      record is the one that poll observed,
    - it raises the timeout error iff every one of these polls observes a
      status that is neither [completed] nor [failed],
    - a poll that observes [failed] is its last event and makes it raise the
      remote-failure error, whatever time is left. *)
Theorem wait_for_bulk_completion_outcome env (c : Client.t) (l : Legacy.t)
    (file_id : string) (check_interval max_wait : Z) (recs : nat -> record)
    (w : World) (K fuel : nat) :
  file_id <> "" ->
  (0 <= check_interval)%Z ->
  (forall k, answers_record env (n_requests w + k) (recs k)) ->
  within env (n_time w) max_wait K && non_terminal (recs K) = false ->
  (K < fuel)%nat ->
  wait_verdict env check_interval max_wait
    (Client.build_request c "getApiFileInfo" "GET" (Some {["file_id" := file_id]}) None None)
    recs w
    (Client.wait_for_bulk_completion env c fuel file_id check_interval max_wait w) /\
  wait_verdict env check_interval max_wait
    (Legacy.build_request l "getApiFileInfo" "GET" (Some {["file_id" := file_id]}) None None)
    recs w
    (Legacy.wait_for_bulk_completion env l fuel file_id check_interval max_wait w).
Proof.
  intros Hfile Hci Hrecs Hout Hfuel. split.
  - apply (wait_verdict_holds env (Client.get_bulk_status env c) file_id
             check_interval max_wait _ recs w Hci) with (K := K); [|done|done].
    intros k w1. by apply client_poll.
  - apply (wait_verdict_holds env (Legacy.get_bulk_status env l) file_id
             check_interval max_wait _ recs w Hci) with (K := K); [|done|done].
    intros k w1. by apply legacy_poll.
Qed.

Lemma wait_for_bulk_completion_outcome_witness :
  let env := Sample.polling Sample.completes_second 10 in
  wait_verdict env 10 25
    (Client.build_request Sample.client "getApiFileInfo" "GET"
       (Some {["file_id" := "f-1"]}) None None)
    Sample.completes_second []
    (Client.wait_for_bulk_completion env Sample.client 2 "f-1" 10 25 []) /\
  wait_verdict env 10 25
    (Legacy.build_request Sample.legacy "getApiFileInfo" "GET"
       (Some {["file_id" := "f-1"]}) None None)
    Sample.completes_second []
    (Legacy.wait_for_bulk_completion env Sample.legacy 2 "f-1" 10 25 []).
Proof.
  intros env.
  apply (wait_for_bulk_completion_outcome env Sample.client Sample.legacy "f-1" 10 25
           Sample.completes_second [] 1 2).
  - discriminate.
  - discriminate.
  - intros k. exists (Sample.ok_json (JObj (Sample.completes_second (0 + k)))).
    split; [intros req; reflexivity|]. split; [discriminate|]. split; reflexivity.
  - reflexivity.
  - apply le_n.
Defined.

(** C2: under the assumptions of C1, the trace of the call is: the reading of
    the start time; then, for each poll that observed a non-terminal status,
    the test of the elapsed time, the poll, and a sleep of [check_interval];
    then a last round. When the test of that round finds the elapsed time at
    or above [max_wait], the call raises the timeout error, whose message
    holds [max_wait], and that test is the last event: no poll follows. *)
Theorem wait_for_bulk_completion_trace env (c : Client.t) (l : Legacy.t)
    (file_id : string) (check_interval max_wait : Z) (recs : nat -> record)
    (w : World) (K fuel : nat) :
  file_id <> "" ->
  (0 <= check_interval)%Z ->
  (forall k, answers_record env (n_requests w + k) (recs k)) ->
  within env (n_time w) max_wait K && non_terminal (recs K) = false ->
  (K < fuel)%nat ->
  wait_trace env check_interval max_wait
    (Client.build_request c "getApiFileInfo" "GET" (Some {["file_id" := file_id]}) None None)
    recs w
    (Client.wait_for_bulk_completion env c fuel file_id check_interval max_wait w) /\
  wait_trace env check_interval max_wait
    (Legacy.build_request l "getApiFileInfo" "GET" (Some {["file_id" := file_id]}) None None)
    recs w
    (Legacy.wait_for_bulk_completion env l fuel file_id check_interval max_wait w).
Proof.
  intros Hfile Hci Hrecs Hout Hfuel. split.
  - apply (wait_trace_holds env (Client.get_bulk_status env c) file_id
             check_interval max_wait _ recs w Hci) with (K := K); [|done|done].
    intros k w1. by apply client_poll.
  - apply (wait_trace_holds env (Legacy.get_bulk_status env l) file_id
             check_interval max_wait _ recs w Hci) with (K := K); [|done|done].
    intros k w1. by apply legacy_poll.
Qed.

Lemma wait_for_bulk_completion_trace_witness :
  let env := Sample.polling (fun _ => Sample.processing) 10 in
  wait_trace env 10 25
    (Client.build_request Sample.client "getApiFileInfo" "GET"
       (Some {["file_id" := "f-1"]}) None None)
    (fun _ => Sample.processing) []
    (Client.wait_for_bulk_completion env Sample.client 3 "f-1" 10 25 []) /\
  wait_trace env 10 25
    (Legacy.build_request Sample.legacy "getApiFileInfo" "GET"
       (Some {["file_id" := "f-1"]}) None None)
    (fun _ => Sample.processing) []
    (Legacy.wait_for_bulk_completion env Sample.legacy 3 "f-1" 10 25 []).
Proof.
  intros env.
  apply (wait_for_bulk_completion_trace env Sample.client Sample.legacy "f-1" 10 25
           (fun _ => Sample.processing) [] 2 3).
  - discriminate.
  - discriminate.
  - intros k. exists (Sample.ok_json (JObj Sample.processing)).
    split; [intros req; reflexivity|]. split; [discriminate|]. split; reflexivity.
  - reflexivity.
  - apply le_n.
Defined.

(** C10: when [max_wait] is zero or negative and the clock does not run
    backwards between its first two readings, [wait_for_bulk_completion]
    raises the timeout error at once: its trace holds the reading of the start
    time and the first test, no request and no sleep, for every file id. *)
Theorem wait_nonpositive_bound env (c : Client.t) (l : Legacy.t)
    (file_id : string) (check_interval max_wait : Z) (w : World) (fuel : nat) :
  (max_wait <= 0)%Z ->
  (clock env (n_time w) <= clock env (n_time w + 1))%Q ->
  (0 < fuel)%nat ->
  Client.wait_for_bulk_completion env c fuel file_id check_interval max_wait w
    = Some (Raise (Timeout max_wait), w ++ [EvTime; EvTime]) /\
  Legacy.wait_for_bulk_completion env l fuel file_id check_interval max_wait w
    = Some (Raise (Timeout max_wait), w ++ [EvTime; EvTime]) /\
  requests_of (w ++ [EvTime; EvTime]) = requests_of w /\
  sleeps_of (w ++ [EvTime; EvTime]) = sleeps_of w.
Proof.
  intros Hmax Hclock Hfuel.
  assert (Hrun : forall poll,
            Common.wait_for_bulk_completion env poll fuel file_id check_interval max_wait w
            = Some (Raise (Timeout max_wait), w ++ [EvTime; EvTime])).
  { intros poll. destruct fuel as [|fuel]; [lia|].
    unfold Common.wait_for_bulk_completion, time_time. rewrite while_S.
    unfold Common.within_bound, time_time, bind, ret.
    rewrite n_time_app. change (n_time [EvTime]) with 1%nat.
    assert (Qltb (clock env (n_time w + 1) - clock env (n_time w)) (inject_Z max_wait)
            = false) as ->.
    { apply Qltb_false. rewrite Zle_Qle in Hmax.
      apply Qle_trans with (inject_Z 0); [exact Hmax|].
      apply (proj1 (Qle_minus_iff _ _)) in Hclock. exact Hclock. }
    by rewrite <- app_assoc. }
  split; [apply Hrun|]. split; [apply Hrun|].
  split.
  - rewrite requests_of_app. simpl. apply app_nil_r.
  - unfold sleeps_of. rewrite omap_app. simpl. apply app_nil_r.
Qed.

Lemma wait_nonpositive_bound_witness :
  let env := Sample.polling (fun _ => Sample.completed) 1 in
  Client.wait_for_bulk_completion env Sample.client 1 "f-1" 10 0 []
    = Some (Raise (Timeout 0), [EvTime; EvTime]).
Proof.
  intros env.
  refine (proj1 (wait_nonpositive_bound env Sample.client Sample.legacy "f-1" 10 0 [] 1
                   _ _ _)).
  - discriminate.
  - discriminate.
  - apply le_n.
Defined.

(** ** Verifying a list of emails *)

Section VerifyEmails.
  Context (verify_email : string -> M string) (delay : Q).
  Hypothesis Hsdk : forall email, raises_sdk_only (verify_email email).

Lemma pause_after_success (w : World) :
  (if Qltb 0 delay then time_sleep delay else ret tt) w = (Ok tt, after_pause delay w).
Proof using Type.
  unfold after_pause, time_sleep. destruct (Qltb 0 delay) eqn:Hd; [|done].
  assert (Qltb delay 0 = false) as ->; [|done].
  apply Qltb_false, Qlt_le_weak. by apply Qltb_true.
Qed.

Lemma verify_emails_from_spec emails : forall results w,
  exists entries results' w',
    Common.verify_emails_from verify_email results emails delay w = (Ok results', w') /\
    processed verify_email delay emails w entries w' /\
    entries.*1 = emails /\
    forall email, results' !! email
                  = match last_entry email entries with
                    | Some v => Some v
                    | None => results !! email
                    end.
Proof using Hsdk.
  induction emails as [|email rest IH]; intros results w.
  - exists [], results, w. split; [done|]. split; [constructor|]. by split.
  - simpl. unfold bind at 1. unfold try_except_sdk, bind.
    pose proof (Hsdk email w) as Honly.
    destruct (verify_email email w) as [[status|e] w1] eqn:Hv; simpl in Honly.
    + rewrite pause_after_success. unfold ret at 1.
      destruct (IH (<[email := status]> results) (after_pause delay w1))
        as (entries & results' & w' & Hrun & Hproc & Hkeys & Hlook).
      exists ((email, status) :: entries), results', w'.
      split; [done|]. split; [by eapply processed_ok|].
      split; [by rewrite <- Hkeys|].
      intros e. rewrite Hlook. simpl.
      destruct (last_entry e entries); [done|].
      destruct (decide (email = e)) as [->|Hne].
      * apply lookup_insert_eq.
      * by apply lookup_insert_ne.
    + destruct e as [msg| | | | |]; try done.
      unfold ret at 1.
      destruct (IH (<[email := "error: " +:+ msg]> results) w1)
        as (entries & results' & w' & Hrun & Hproc & Hkeys & Hlook).
      exists ((email, "error: " +:+ msg) :: entries), results', w'.
      split; [done|]. split; [by eapply processed_error|].
      split; [by rewrite <- Hkeys|].
      intros e. rewrite Hlook. simpl.
      destruct (last_entry e entries); [done|].
      destruct (decide (email = e)) as [->|Hne].
      * apply lookup_insert_eq.
      * by apply lookup_insert_ne.
Qed.

Lemma verify_emails_contract_holds emails w :
  verify_emails_contract verify_email emails delay w
    (Common.verify_emails verify_email emails delay w).
Proof using Hsdk.
  destruct (verify_emails_from_spec emails ∅ w)
    as (entries & results & w' & Hrun & Hproc & Hkeys & Hlook).
  exists entries, results, w'. repeat split; try done.
  intros e. rewrite Hlook, lookup_empty. by destruct (last_entry e entries).
Qed.

End VerifyEmails.

Lemma client_verify_email_sdk_only env (c : Client.t) email :
  raises_sdk_only (Client.verify_email env c email).
Proof.
  intros w. unfold Client.verify_email.
  destruct (PyStr.falsy email); [done|].
  unfold bind. rewrite client_make_request_eq, client_make_request_result.
  destruct (http env _ _) as [r|cause]; [|done].
  destruct (status_code r =? 401)%Z; [done|].
  by destruct (raise_for_status r).
Qed.

Lemma simple_verify_email_sdk_only env (s : Simple.t) email :
  raises_sdk_only (Simple.verify_email env s email).
Proof.
  intros w. unfold Simple.verify_email.
  destruct (PyStr.falsy email); [done|].
  unfold_monad.
  destruct (http env _ _) as [r|cause]; [|done]. simpl.
  by destruct (raise_for_status r).
Qed.

(** C8, as stated, fails on a list with a duplicate: the first verification of
    the address fails, the second succeeds, and the mapping keeps the status
    of the second. *)
Lemma verify_emails_duplicate_overwrites :
  let env := Sample.scripted
               [TransportFailure "connection reset"; Responded (Sample.ok_text "ok")] [] 0 in
  fst (Client.verify_email env Sample.client "a@x.com" [])
    = Raise (RequestFailed "connection reset") /\
  exists results,
    fst (Client.verify_emails env Sample.client ["a@x.com"; "a@x.com"] 0 []) = Ok results /\
    results !! "a@x.com" = Some "ok" /\
    results !! "a@x.com" <> Some "error: Request failed: connection reset".
Proof.
  split; [vm_compute; reflexivity|].
  exists {["a@x.com" := "ok"]}.
  split; [vm_compute; reflexivity|]. split; [vm_compute; reflexivity|].
  vm_compute. discriminate.
Qed.

(** C8 (amended): [verify_emails] verifies the emails in the order of the
    list, each element once, duplicates too; it never raises; a verification
    that raises leaves the string ["error: <message>"] for its email, any
    other its status; and the mapping returned holds, for each email of the
    list, what its last occurrence left. This holds in client.py and in
    emaillistverify/__init__.py. *)
Theorem verify_emails_partial_success env (c : Client.t) (s : Simple.t)
    (emails : list string) (delay : Q) (w : World) :
  verify_emails_contract (Client.verify_email env c) emails delay w
    (Client.verify_emails env c emails delay w) /\
  verify_emails_contract (Simple.verify_email env s) emails delay w
    (Simple.verify_emails env s emails delay w).
Proof.
  split.
  - apply verify_emails_contract_holds. apply client_verify_email_sdk_only.
  - apply verify_emails_contract_holds. apply simple_verify_email_sdk_only.
Qed.

(** The scenario of the spec: the first address is verified, the second meets
    a transport failure. *)
Example verify_emails_scenario :
  let env := Sample.scripted
               [Responded (Sample.ok_text "ok"); TransportFailure "connection reset"] [] 0 in
  fst (Client.verify_emails env Sample.client ["a@x.com"; "bad"] (1 # 10) [])
    = Ok (<["bad" := "error: Request failed: connection reset"]> {["a@x.com" := "ok"]}) /\
  sleeps_of (snd (Client.verify_emails env Sample.client ["a@x.com"; "bad"] (1 # 10) []))
    = [1 # 10].
Proof. split; vm_compute; reflexivity. Qed.

(** ** The secret key on every request *)

Section Signing.
  Context (env : Env) (key : string).

Lemma grows_refl w : grows_signed key w w.
Proof. exists []. split; [by rewrite app_nil_r|constructor]. Qed.

Lemma grows_trans w1 w2 w3 :
  grows_signed key w1 w2 -> grows_signed key w2 w3 -> grows_signed key w1 w3.
Proof.
  intros (n1 & -> & H1) (n2 & -> & H2). exists (n1 ++ n2).
  split; [by rewrite app_assoc|]. rewrite requests_of_app. by apply Forall_app.
Qed.

Lemma grows_silent w e :
  (forall r, e <> EvRequest r) -> grows_signed key w (w ++ [e]).
Proof.
  intros He. exists [e]. split; [done|].
  destruct e as [r| | |]; [by destruct (He r)|constructor..].
Qed.

Lemma grows_request w r : carries_secret key r -> grows_signed key w (w ++ [EvRequest r]).
Proof. intros Hr. exists [EvRequest r]. split; [done|]. by repeat constructor. Qed.

Lemma signs_ret {A} (a : A) : signs key (ret a).
Proof. intros w. apply grows_refl. Qed.

Lemma signs_raise {A} e : signs key (@raise A e).
Proof. intros w. apply grows_refl. Qed.

Lemma signs_bind {A B} (m : M A) (k : A -> M B) :
  signs key m -> (forall a, signs key (k a)) -> signs key (bind m k).
Proof.
  intros Hm Hk w. unfold bind. specialize (Hm w).
  destruct (m w) as [[a|e] w1]; simpl in *; [|done].
  eapply grows_trans; [exact Hm|apply Hk].
Qed.

Lemma signs_try_sdk {A} (m : M A) (h : string -> M A) :
  signs key m -> (forall msg, signs key (h msg)) -> signs key (try_except_sdk m h).
Proof.
  intros Hm Hh w. unfold try_except_sdk. specialize (Hm w).
  destruct (m w) as [[a|[msg| | | | |]] w1]; simpl in *; try done.
  eapply grows_trans; [exact Hm|apply Hh].
Qed.

Lemma signs_try_http {A} (m : M A) (h : string -> M A) :
  signs key m -> (forall msg, signs key (h msg)) -> signs key (try_except_http m h).
Proof.
  intros Hm Hh w. unfold try_except_http. specialize (Hm w).
  destruct (m w) as [[a|[|msg| | | |]] w1]; simpl in *; try done.
  eapply grows_trans; [exact Hm|apply Hh].
Qed.

Lemma signs_request r : carries_secret key r -> signs key (request env r).
Proof.
  intros Hr w. unfold request.
  destruct (http env _ _); simpl; by apply grows_request.
Qed.

Lemma signs_check_status r : signs key (check_status r).
Proof. unfold check_status. destruct (raise_for_status r); [apply signs_raise|apply signs_ret]. Qed.

Lemma signs_time_time : signs key (time_time env).
Proof. intros w. by apply grows_silent. Qed.

Lemma signs_time_sleep d : signs key (time_sleep d).
Proof.
  intros w. unfold time_sleep.
  destruct (Qltb d 0); simpl; [apply grows_refl|by apply grows_silent].
Qed.

Lemma signs_now_stamp : signs key (now_stamp env).
Proof. intros w. by apply grows_silent. Qed.

Lemma signs_open_rb path : signs key (open_rb env path).
Proof. unfold open_rb. destruct (file_content env path); [apply signs_ret|apply signs_raise]. Qed.

Lemma signs_if {A} (b : bool) (m1 m2 : M A) :
  signs key m1 -> signs key m2 -> signs key (if b then m1 else m2).
Proof. by destruct b. Qed.

Lemma signs_while {A} (cond : M bool) (body : M (option A)) :
  signs key cond -> signs key body ->
  forall fuel w res w',
    while fuel cond body w = Some (res, w') -> grows_signed key w w'.
Proof.
  intros Hc Hb. induction fuel as [|fuel IH]; intros w res w' Hrun; [done|].
  rewrite while_S in Hrun. specialize (Hc w).
  destruct (cond w) as [[[|]|e] w1]; simpl in Hc.
  - specialize (Hb w1).
    destruct (body w1) as [[[v|]|e] w2]; simpl in Hb.
    + injection Hrun as <- <-. by eapply grows_trans.
    + eapply grows_trans; [exact Hc|]. eapply grows_trans; [exact Hb|]. by eapply IH.
    + injection Hrun as <- <-. by eapply grows_trans.
  - by injection Hrun as <- <-.
  - by injection Hrun as <- <-.
Qed.

Lemma signs_verify_emails_from (verify_email : string -> M string) delay :
  (forall email, signs key (verify_email email)) ->
  forall emails results,
    signs key (Common.verify_emails_from verify_email results emails delay).
Proof.
  intros Hv. induction emails as [|email rest IH]; intros results; simpl.
  - apply signs_ret.
  - apply signs_bind; [|intros; apply IH].
    apply signs_try_sdk; [|intros; apply signs_ret].
    apply signs_bind; [apply Hv|]. intros status.
    apply signs_bind; [|intros; apply signs_ret].
    apply signs_if; [apply signs_time_sleep|apply signs_ret].
Qed.

Lemma signs_wait (poll : string -> M json) file_id check_interval max_wait :
  (forall f, signs key (poll f)) ->
  forall fuel w res w',
    Common.wait_for_bulk_completion env poll fuel file_id check_interval max_wait w
      = Some (res, w') ->
    grows_signed key w w'.
Proof.
  intros Hpoll fuel w res w' Hrun.
  unfold Common.wait_for_bulk_completion, time_time in Hrun.
  assert (Hloop : forall r w2,
            while fuel (Common.within_bound env (clock env (n_time w)) max_wait)
              (Common.poll_once env poll file_id check_interval) (w ++ [EvTime])
              = Some (r, w2) ->
            grows_signed key w w2).
  { intros r w2 Hw. apply (grows_trans w (w ++ [EvTime]) w2); [by apply grows_silent|].
    eapply signs_while; [| |exact Hw].
    - apply signs_bind; [apply signs_time_time|intros; apply signs_ret].
    - unfold Common.poll_once.
      apply signs_bind; [apply Hpoll|]. intros status.
      assert (Hget : forall k, signs key (Common.status_get status k)).
      { intros k. unfold Common.status_get.
        destruct status; try apply signs_raise. apply signs_ret. }
      apply signs_bind; [apply Hget|]. intros st.
      apply signs_if; [apply signs_ret|].
      apply signs_if.
      + apply signs_bind; [apply Hget|]. intros; apply signs_raise.
      + apply signs_bind; [apply signs_time_sleep|intros; apply signs_ret]. }
  destruct (while fuel _ _ _) as [[[[v|]|e] w2]|]; [| | |done];
    injection Hrun as <- <-; by eapply Hloop.
Qed.

End Signing.

Section SignedMethods.
  Context (env : Env).

Lemma client_request_signed (c : Client.t) endpoint method params data files :
  carries_secret (Client.api_key c) (Client.build_request c endpoint method params data files).
Proof. apply lookup_insert_eq. Qed.

Lemma legacy_request_signed (l : Legacy.t) endpoint method params data files :
  carries_secret (Legacy.api_key l) (Legacy.build_request l endpoint method params data files).
Proof. apply lookup_insert_eq. Qed.

Lemma simple_request_signed (s : Simple.t) email :
  carries_secret (Simple.api_key s) (Simple.build_request s email).
Proof.
  unfold carries_secret. simpl.
  rewrite lookup_insert_ne by done. apply lookup_singleton_eq.
Qed.

Lemma signs_client_make_request (c : Client.t) endpoint method params data files :
  signs (Client.api_key c) (Client._make_request env c endpoint method params data files).
Proof.
  intros w. rewrite client_make_request_trace.
  apply grows_request, client_request_signed.
Qed.

Lemma signs_legacy_make_request (l : Legacy.t) endpoint method params data files :
  signs (Legacy.api_key l) (Legacy._make_request env l endpoint method params data files).
Proof.
  intros w. rewrite legacy_make_request_trace.
  apply grows_request, legacy_request_signed.
Qed.

Lemma signs_client_verify_email (c : Client.t) email :
  signs (Client.api_key c) (Client.verify_email env c email).
Proof.
  unfold Client.verify_email. apply signs_if; [apply signs_raise|].
  apply signs_bind; [apply signs_client_make_request|intros; apply signs_ret].
Qed.

Lemma signs_simple_verify_email (s : Simple.t) email :
  signs (Simple.api_key s) (Simple.verify_email env s email).
Proof.
  unfold Simple.verify_email. apply signs_if; [apply signs_raise|].
  apply signs_try_http; [|intros; apply signs_raise].
  apply signs_bind; [apply signs_request, simple_request_signed|]. intros r.
  apply signs_bind; [apply signs_check_status|intros; apply signs_ret].
Qed.

Lemma signs_client_get_bulk_status (c : Client.t) file_id :
  signs (Client.api_key c) (Client.get_bulk_status env c file_id).
Proof.
  unfold Client.get_bulk_status.
  apply signs_if; [apply signs_raise|apply signs_client_make_request].
Qed.

Lemma signs_legacy_get_bulk_status (l : Legacy.t) file_id :
  signs (Legacy.api_key l) (Legacy.get_bulk_status env l file_id).
Proof.
  unfold Legacy.get_bulk_status.
  apply signs_if; [apply signs_raise|apply signs_legacy_make_request].
Qed.

Lemma signs_client_download (c : Client.t) file_id result_type :
  signs (Client.api_key c) (Client.download_bulk_result env c file_id result_type).
Proof.
  unfold Client.download_bulk_result.
  apply signs_if; [apply signs_raise|].
  apply signs_if; [apply signs_raise|apply signs_client_make_request].
Qed.

Lemma signs_legacy_download (l : Legacy.t) file_id result_type :
  signs (Legacy.api_key l) (Legacy.download_bulk_result env l file_id result_type).
Proof.
  unfold Legacy.download_bulk_result.
  apply signs_if; [apply signs_raise|].
  apply signs_if; [apply signs_raise|apply signs_legacy_make_request].
Qed.

Lemma signs_client_bulk_upload (c : Client.t) file_path filename :
  signs (Client.api_key c) (Client.bulk_upload env c file_path filename).
Proof.
  unfold Client.bulk_upload. apply signs_if; [apply signs_raise|].
  apply signs_bind.
  { destruct filename; [apply signs_ret|].
    apply signs_bind; [apply signs_now_stamp|intros; apply signs_ret]. }
  intros name. apply signs_bind; [apply signs_open_rb|]. intros f.
  apply signs_bind; [apply signs_client_make_request|]. intros result.
  destruct result as [| | | | | |d]; try apply signs_raise; [apply signs_ret|].
  destruct (dict_get "file_id" d); [apply signs_ret|apply signs_raise].
Qed.

Lemma signs_legacy_bulk_upload (l : Legacy.t) file_path filename :
  signs (Legacy.api_key l) (Legacy.bulk_upload env l file_path filename).
Proof.
  unfold Legacy.bulk_upload. apply signs_if; [apply signs_raise|].
  apply signs_bind.
  { destruct filename; [apply signs_ret|].
    apply signs_bind; [apply signs_now_stamp|intros; apply signs_ret]. }
  intros name. apply signs_bind; [apply signs_open_rb|]. intros f.
  apply signs_bind; [apply signs_legacy_make_request|]. intros result.
  destruct result as [| | | | | |d]; try apply signs_raise; [apply signs_ret|].
  destruct (dict_get "file_id" d); [apply signs_ret|apply signs_raise].
Qed.

End SignedMethods.

(** C3: every request the transport issues carries the configured key as its
    [secret] parameter, whatever parameters the caller passed: [_make_request]
    of client.py and of emaillistverify.py logs one request, which carries the
    key, and every request issued by a method of the three clients carries
    the key of its client. *)
Theorem secret_on_every_request env (c : Client.t) (l : Legacy.t) (s : Simple.t) :
  (forall endpoint method params data files w,
     exists r,
       snd (Client._make_request env c endpoint method params data files w)
         = w ++ [EvRequest r] /\
       req_params r !! "secret" = Some (Client.api_key c)) /\
  (forall endpoint method params data files w,
     exists r,
       snd (Legacy._make_request env l endpoint method params data files w)
         = w ++ [EvRequest r] /\
       req_params r !! "secret" = Some (Legacy.api_key l)) /\
  (forall email, signs (Client.api_key c) (Client.verify_email env c email)) /\
  (forall emails delay, signs (Client.api_key c) (Client.verify_emails env c emails delay)) /\
  (forall file_path filename,
     signs (Client.api_key c) (Client.bulk_upload env c file_path filename)) /\
  (forall file_id, signs (Client.api_key c) (Client.get_bulk_status env c file_id)) /\
  (forall file_id result_type,
     signs (Client.api_key c) (Client.download_bulk_result env c file_id result_type)) /\
  (forall fuel file_id check_interval max_wait w res w',
     Client.wait_for_bulk_completion env c fuel file_id check_interval max_wait w
       = Some (res, w') ->
     grows_signed (Client.api_key c) w w') /\
  (forall file_path filename,
     signs (Legacy.api_key l) (Legacy.bulk_upload env l file_path filename)) /\
  (forall file_id, signs (Legacy.api_key l) (Legacy.get_bulk_status env l file_id)) /\
  (forall file_id result_type,
     signs (Legacy.api_key l) (Legacy.download_bulk_result env l file_id result_type)) /\
  (forall fuel file_id check_interval max_wait w res w',
     Legacy.wait_for_bulk_completion env l fuel file_id check_interval max_wait w
       = Some (res, w') ->
     grows_signed (Legacy.api_key l) w w') /\
  (forall email, signs (Simple.api_key s) (Simple.verify_email env s email)) /\
  (forall emails delay, signs (Simple.api_key s) (Simple.verify_emails env s emails delay)).
Proof.
  repeat apply conj.
  - intros. eexists. split; [apply client_make_request_trace|apply client_request_signed].
  - intros. eexists. split; [apply legacy_make_request_trace|apply legacy_request_signed].
  - apply signs_client_verify_email.
  - intros. apply signs_verify_emails_from. apply signs_client_verify_email.
  - apply signs_client_bulk_upload.
  - apply signs_client_get_bulk_status.
  - apply signs_client_download.
  - intros * Hrun. eapply signs_wait; [|exact Hrun]. apply signs_client_get_bulk_status.
  - apply signs_legacy_bulk_upload.
  - apply signs_legacy_get_bulk_status.
  - apply signs_legacy_download.
  - intros * Hrun. eapply signs_wait; [|exact Hrun]. apply signs_legacy_get_bulk_status.
  - apply signs_simple_verify_email.
  - intros. apply signs_verify_emails_from. apply signs_simple_verify_email.
Qed.

Lemma secret_on_every_request_witness :
  let env := Sample.polling Sample.completes_second 10 in
  grows_signed "KEY" []
    [EvTime; EvTime;
     EvRequest (Client.build_request Sample.client "getApiFileInfo" "GET"
                  (Some {["file_id" := "f-1"]}) None None);
     EvSleep 10; EvTime;
     EvRequest (Client.build_request Sample.client "getApiFileInfo" "GET"
                  (Some {["file_id" := "f-1"]}) None None)].
Proof.
  intros env.
  refine (proj1 (proj2 (proj2 (proj2 (proj2 (proj2 (proj2 (proj2
            (secret_on_every_request env Sample.client Sample.legacy Sample.simple))))))))
            3%nat "f-1" 10%Z 25%Z [] (Ok (JObj Sample.completed)) _ _).
  vm_compute. reflexivity.
Defined.

(** A caller that passes its own [secret] parameter does not change that. *)
Example caller_secret_is_overridden :
  let env := Sample.scripted [Responded (Sample.ok_text "ok")] [] 0 in
  requests_of (snd (Client._make_request env Sample.client "verifyEmail" "GET"
                      (Some {["secret" := "OTHER"]}) None None []))
  = [Client.build_request Sample.client "verifyEmail" "GET" None None None].
Proof. vm_compute. reflexivity. Qed.

(** ** The polling loop on sample services *)

(** A job reported as failed ends the call at its first poll, with the detail
    of the record in the message and an hour of budget left. *)
Example wait_remote_failure :
  Client.wait_for_bulk_completion (Sample.polling (fun _ => Sample.failed) 10)
    Sample.client 1 "f-1" 10 3600 []
  = Some (Raise (RemoteFailure "bad file"),
          [EvTime; EvTime;
           EvRequest (Client.build_request Sample.client "getApiFileInfo" "GET"
                        (Some {["file_id" := "f-1"]}) None None)]).
Proof. vm_compute. reflexivity. Qed.

(** A service that keeps answering [processing]: two polls, ten seconds
    apart, fit in a bound of 25 seconds; the third test ends the call. *)
Example wait_times_out :
  let req := Client.build_request Sample.client "getApiFileInfo" "GET"
               (Some {["file_id" := "f-1"]}) None None in
  Client.wait_for_bulk_completion (Sample.polling (fun _ => Sample.processing) 10)
    Sample.client 3 "f-1" 10 25 []
  = Some (Raise (EmailListVerifyError
                   "Timeout waiting for bulk verification (waited 25s)"),
          [EvTime; EvTime; EvRequest req; EvSleep 10;
           EvTime; EvRequest req; EvSleep 10; EvTime]).
Proof. vm_compute. reflexivity. Qed.

(** ** Strings *)

Lemma str_app_cons a s t : String a s +:+ t = String a (s +:+ t).
Proof. reflexivity. Qed.

Lemma str_app_nil_l t : "" +:+ t = t.
Proof. reflexivity. Qed.

Ltac str_simpl := rewrite ?str_app_cons, ?str_app_nil_l in *; simpl in *.

Lemma str_app_nil_r s : s +:+ "" = s.
Proof. induction s as [|a s IH]; [done|]. str_simpl. by rewrite IH. Qed.

Lemma str_app_assoc s1 s2 s3 : (s1 +:+ s2) +:+ s3 = s1 +:+ (s2 +:+ s3).
Proof. induction s1 as [|a s1 IH]; [done|]. str_simpl. by rewrite IH. Qed.

Lemma str_app_eq_nil s1 s2 : s1 +:+ s2 = "" -> s1 = "" /\ s2 = "".
Proof. destruct s1; [done|discriminate]. Qed.

Lemma count_char_app c s1 s2 :
  count_char c (s1 +:+ s2) = (count_char c s1 + count_char c s2)%nat.
Proof. induction s1 as [|a s1 IH]; [done|]. str_simpl. rewrite IH. lia. Qed.

Lemma contains_app c s1 s2 :
  PyStr.contains c (s1 +:+ s2) = PyStr.contains c s1 || PyStr.contains c s2.
Proof.
  induction s1 as [|a s1 IH]; [done|]. str_simpl.
  by destruct (decide (a = c)).
Qed.

Lemma all_chars_app p s1 s2 :
  all_chars p (s1 +:+ s2) = all_chars p s1 && all_chars p s2.
Proof.
  induction s1 as [|a s1 IH]; [done|]. str_simpl. rewrite IH. by destruct (p a).
Qed.

Lemma all_chars_excludes p c s :
  all_chars p s = true -> p c = false ->
  PyStr.contains c s = false /\ count_char c s = 0%nat.
Proof.
  intros Hall Hc. induction s as [|a s IH]; [done|]. simpl in *.
  apply andb_true_iff in Hall as [Ha Hs].
  destruct (decide (a = c)) as [->|]; [congruence|].
  destruct (IH Hs) as [-> ->]. done.
Qed.

Lemma lower_app s1 s2 : PyStr.lower (s1 +:+ s2) = PyStr.lower s1 +:+ PyStr.lower s2.
Proof. induction s1 as [|a s1 IH]; [done|]. str_simpl. by rewrite IH. Qed.

Lemma lower_char_idem a : PyStr.lower_char (PyStr.lower_char a) = PyStr.lower_char a.
Proof. destruct a as [[] [] [] [] [] [] [] []]; reflexivity. Qed.

Lemma lower_idem s : PyStr.lower (PyStr.lower s) = PyStr.lower s.
Proof. induction s as [|a s IH]; [done|]. simpl. by rewrite lower_char_idem, IH. Qed.

Lemma lower_char_at a : PyStr.lower_char a = "@"%char -> a = "@"%char.
Proof.
  destruct a as [[] [] [] [] [] [] [] []]; intros H; vm_compute in H;
    first [reflexivity | discriminate H].
Qed.

Lemma lower_char_dot : PyStr.lower_char "." = "."%char.
Proof. reflexivity. Qed.

Lemma lower_no_at s : PyStr.contains "@" s = false -> PyStr.contains "@" (PyStr.lower s) = false.
Proof.
  induction s as [|a s IH]; [done|]. simpl.
  destruct (decide (a = "@"%char)); [discriminate|]. intros Hs.
  destruct (decide (PyStr.lower_char a = "@"%char)) as [Hl|]; [|by apply IH].
  by apply lower_char_at in Hl.
Qed.

Lemma until_at_clean s : PyStr.contains "@" (until_at s) = false.
Proof.
  induction s as [|a s IH]; [done|]. simpl.
  destruct (decide (a = "@"%char)) as [|Hne]; [done|]. simpl.
  by destruct (decide (a = "@"%char)).
Qed.

Lemma after_first_at_app l rest :
  PyStr.contains "@" l = false -> after_first_at (l +:+ String "@" rest) = rest.
Proof.
  induction l as [|a l IH]; str_simpl.
  - intros _. by destruct (decide ("@"%char = "@"%char)).
  - destruct (decide (a = "@"%char)); [discriminate|]. apply IH.
Qed.

(** ** Regular expressions: the matcher decides the language *)

Section RegexFacts.
Import Regex.

Lemma nullable_spec r : nullable r = true <-> lang r "".
Proof.
  split.
  - induction r as [| |p|r1 IH1 r2 IH2|r1 IH1 r2 IH2|r IH]; simpl; intros H;
      try discriminate.
    + constructor.
    + apply andb_true_iff in H as [H1 H2].
      rewrite <- (str_app_nil_l ""). constructor; auto.
    + apply orb_true_iff in H as [H|H]; [apply lang_alt_l|apply lang_alt_r]; auto.
    + constructor.
  - intros H. remember "" as s eqn:Hs.
    induction H as [|p a Hp|r1 r2 s1 s2 H1 IH1 H2 IH2|r1 r2 s H IH|r1 r2 s H IH
                   |r|r s1 s2 H1 IH1 H2 IH2]; simpl; try done.
    + apply str_app_eq_nil in Hs as [-> ->]. by rewrite IH1, IH2.
    + by rewrite IH.
    + rewrite IH by done. apply orb_true_r.
Qed.

Lemma star_cons_inv r a s :
  lang (Star r) (String a s) ->
  exists s1 s2, s = s1 +:+ s2 /\ lang r (String a s1) /\ lang (Star r) s2.
Proof.
  intros H. remember (Star r) as R eqn:HR. remember (String a s) as str eqn:Hstr.
  revert s Hstr.
  induction H as [|p b Hp|r1 r2 s1 s2 H1 IH1 H2 IH2|r1 r2 s0 H IH|r1 r2 s0 H IH
                 |r0|r0 s1 s2 H1 IH1 H2 IH2]; intros s Hstr; try discriminate.
  injection HR as ->.
  destruct s1 as [|b s1]; str_simpl.
  - by apply IH2.
  - injection Hstr as Hb Hs. subst. by exists s1, s2.
Qed.

Lemma lang_char_inv p s : lang (Char p) s -> exists a, s = String a "" /\ p a = true.
Proof. intros H. inversion H; subst. by eexists. Qed.

Lemma lang_cat_inv r1 r2 s :
  lang (Cat r1 r2) s -> exists s1 s2, s = s1 +:+ s2 /\ lang r1 s1 /\ lang r2 s2.
Proof. intros H. inversion H; subst. by eexists _, _. Qed.

Lemma lang_alt_inv r1 r2 s : lang (Alt r1 r2) s -> lang r1 s \/ lang r2 s.
Proof. intros H. inversion H; subst; auto. Qed.

Lemma deriv_spec r : forall a s, lang (deriv a r) s <-> lang r (String a s).
Proof.
  induction r as [| |p|r1 IH1 r2 IH2|r1 IH1 r2 IH2|r IH]; intros a s; simpl.
  - split; intros H; inversion H.
  - split; intros H; inversion H.
  - split.
    + destruct (p a) eqn:Hp; intros H; inversion H; subst. by constructor.
    + intros H. apply lang_char_inv in H as (b & Heq & Hb).
      injection Heq as -> ->. rewrite Hb. constructor.
  - split.
    + intros H.
      assert (Hleft : lang (Cat (deriv a r1) r2) s -> lang (Cat r1 r2) (String a s)).
      { intros Hc. apply lang_cat_inv in Hc as (s1 & s2 & -> & Hd & H2).
        apply IH1 in Hd. rewrite <- str_app_cons. by constructor. }
      destruct (nullable r1) eqn:Hn; [|by apply Hleft].
      apply lang_alt_inv in H as [H|H]; [by apply Hleft|].
      rewrite <- (str_app_nil_l (String a s)).
      constructor; [by apply nullable_spec|by apply IH2].
    + intros H. apply lang_cat_inv in H as (s1 & s2 & Heq & H1 & H2).
      destruct s1 as [|b s1]; rewrite ?str_app_cons, ?str_app_nil_l in Heq.
      * subst s2. apply nullable_spec in H1. rewrite H1.
        apply lang_alt_r. by apply IH2.
      * injection Heq as Hb Hs. subst.
        assert (Hc : lang (Cat (deriv b r1) r2) (s1 +:+ s2)).
        { constructor; [by apply IH1|done]. }
        destruct (nullable r1); [by apply lang_alt_l|done].
  - split.
    + intros H. apply lang_alt_inv in H as [H|H];
        [apply lang_alt_l; by apply IH1|apply lang_alt_r; by apply IH2].
    + intros H. apply lang_alt_inv in H as [H|H];
        [apply lang_alt_l; by apply IH1|apply lang_alt_r; by apply IH2].
  - split.
    + intros H. apply lang_cat_inv in H as (s1 & s2 & -> & Hd & Hs).
      apply IH in Hd. rewrite <- str_app_cons. by constructor.
    + intros H. apply star_cons_inv in H as (s1 & s2 & -> & H1 & H2).
      constructor; [by apply IH|done].
Qed.

Lemma matches_spec s : forall r, matches r s = true <-> lang r s.
Proof.
  induction s as [|a s IH]; intros r; simpl.
  - apply nullable_spec.
  - rewrite IH. apply deriv_spec.
Qed.

Lemma lang_star_chars p s : lang (Star (Char p)) s <-> all_chars p s = true.
Proof.
  split.
  - intros H. remember (Star (Char p)) as R eqn:HR.
    induction H as [|q b Hq|r1 r2 s1 s2 H1 IH1 H2 IH2|r1 r2 s0 H IH|r1 r2 s0 H IH
                   |r0|r0 s1 s2 H1 IH1 H2 IH2]; try discriminate; [done|].
    injection HR as ->. apply lang_char_inv in H1 as (a & -> & Ha).
    str_simpl. by rewrite Ha, IH2.
  - induction s as [|a s IH]; simpl; intros H; [constructor|].
    apply andb_true_iff in H as [Ha Hs].
    rewrite <- (str_app_nil_l s), <- str_app_cons.
    constructor; [by constructor|by apply IH].
Qed.

Lemma lang_plus_chars p s :
  lang (plus (Char p)) s <-> all_chars p s = true /\ s <> "".
Proof.
  unfold plus. split.
  - intros H. apply lang_cat_inv in H as (s1 & s2 & -> & H1 & H2).
    apply lang_char_inv in H1 as (a & -> & Ha). apply lang_star_chars in H2.
    rewrite str_app_cons, str_app_nil_l. simpl. by rewrite Ha, H2.
  - intros [H Hne]. destruct s as [|a s]; [done|]. simpl in H.
    apply andb_true_iff in H as [Ha Hs].
    rewrite <- (str_app_nil_l s), <- str_app_cons.
    constructor; [by constructor|by apply lang_star_chars].
Qed.

End RegexFacts.

(** ** Local heuristics *)

Section Heuristics.
Import EmailValidator.

Lemma is_char_true c a : is_char c a = true -> a = c.
Proof. apply bool_decide_eq_true_1. Qed.

(** The strings the pattern stands for, without its anchors. *)
Lemma address_shape s :
  Regex.lang address s <->
  exists l d t,
    s = l +:+ String "@" (d +:+ String "." t) /\
    all_chars local_char l = true /\ l <> "" /\
    all_chars domain_char d = true /\ d <> "" /\
    all_chars letter t = true /\ (2 <= String.length t)%nat.
Proof.
  unfold address. split.
  - intros H.
    apply lang_cat_inv in H as (l & s1 & -> & Hl & H).
    apply lang_cat_inv in H as (at1 & s2 & -> & Hat & H).
    apply lang_cat_inv in H as (d & s3 & -> & Hd & H).
    apply lang_cat_inv in H as (dot & s4 & -> & Hdot & H).
    apply lang_cat_inv in H as (t1 & s5 & -> & Ht1 & H).
    apply lang_cat_inv in H as (t2 & ts & -> & Ht2 & Hts).
    apply lang_plus_chars in Hl as [Hl Hlne]. apply lang_plus_chars in Hd as [Hd Hdne].
    apply lang_char_inv in Hat as (a & -> & ->%is_char_true).
    apply lang_char_inv in Hdot as (b & -> & ->%is_char_true).
    apply lang_char_inv in Ht1 as (c1 & -> & Hc1).
    apply lang_char_inv in Ht2 as (c2 & -> & Hc2).
    apply lang_star_chars in Hts.
    exists l, d, (String c1 (String c2 ts)).
    rewrite !str_app_cons, !str_app_nil_l.
    repeat split; try done.
    + simpl. by rewrite Hc1, Hc2, Hts.
    + simpl. lia.
  - intros (l & d & t & -> & Hl & Hlne & Hd & Hdne & Ht & Hlen).
    destruct t as [|c1 [|c2 ts]]; simpl in Hlen; try lia.
    simpl in Ht. apply andb_true_iff in Ht as [Hc1 Ht].
    apply andb_true_iff in Ht as [Hc2 Hts].
    constructor; [by apply lang_plus_chars|].
    rewrite <- (str_app_nil_l (d +:+ _)), <- str_app_cons.
    constructor; [constructor; by apply bool_decide_eq_true_2|].
    constructor; [by apply lang_plus_chars|].
    rewrite <- (str_app_nil_l (String c1 _)), <- str_app_cons.
    constructor; [constructor; by apply bool_decide_eq_true_2|].
    rewrite <- (str_app_nil_l (String c2 _)), <- str_app_cons.
    constructor; [by constructor|].
    rewrite <- (str_app_nil_l ts), <- str_app_cons.
    constructor; [by constructor|by apply lang_star_chars].
Qed.

Lemma pattern_shape s :
  is_valid_syntax s = true <->
  exists core, Regex.lang address core /\ (s = core \/ s = core +:+ String newline "").
Proof.
  unfold is_valid_syntax. rewrite matches_spec. unfold pattern. split.
  - intros H. apply lang_cat_inv in H as (core & nl & -> & Hcore & Hnl).
    exists core. split; [done|].
    apply lang_alt_inv in Hnl as [Hnl|Hnl].
    + inversion Hnl; subst. left. by rewrite str_app_nil_r.
    + apply lang_char_inv in Hnl as (a & -> & ->%is_char_true). by right.
  - intros (core & Hcore & [->| ->]).
    + rewrite <- (str_app_nil_r core). constructor; [done|]. apply Regex.lang_alt_l. constructor.
    + constructor; [done|]. apply Regex.lang_alt_r. constructor.
      by apply bool_decide_eq_true_2.
Qed.

(** What follows the ['@'] of an accepted string holds no ['@'], and a dot. *)
Lemma valid_decomposition s :
  is_valid_syntax s = true ->
  exists l rest,
    s = l +:+ String "@" rest /\
    PyStr.contains "@" l = false /\ count_char "@" l = 0%nat /\
    PyStr.contains "@" rest = false /\ count_char "@" rest = 0%nat /\
    PyStr.contains "." rest = true /\ l <> "".
Proof.
  intros (core & Hcore & Hs)%pattern_shape.
  apply address_shape in Hcore as (l & d & t & -> & Hl & Hlne & Hd & Hdne & Ht & Hlen).
  destruct (all_chars_excludes local_char "@" l Hl eq_refl) as [Hl1 Hl2].
  destruct (all_chars_excludes domain_char "@" d Hd eq_refl) as [Hd1 Hd2].
  destruct (all_chars_excludes letter "@" t Ht eq_refl) as [Ht1 Ht2].
  destruct Hs as [->| ->].
  - exists l, (d +:+ String "." t). repeat split; try done.
    + rewrite contains_app, Hd1. simpl. by rewrite Ht1.
    + rewrite count_char_app, Hd2. simpl. by rewrite Ht2.
    + rewrite contains_app. simpl. apply orb_true_r.
  - exists l, (d +:+ String "." (t +:+ String newline "")).
    rewrite !str_app_assoc, !str_app_cons, !str_app_assoc.
    repeat split; try done.
    + rewrite contains_app, Hd1. simpl. by rewrite contains_app, Ht1.
    + rewrite count_char_app, Hd2. simpl. by rewrite count_char_app, Ht2.
    + rewrite contains_app. simpl. apply orb_true_r.
Qed.

End Heuristics.

(** X1: a string that [is_valid_syntax] accepts holds exactly one ['@']. *)
Theorem valid_syntax_one_at (s : string) :
  EmailValidator.is_valid_syntax s = true -> count_char "@" s = 1%nat.
Proof.
  intros (l & rest & -> & _ & Hl & _ & Hrest & _)%valid_decomposition.
  rewrite count_char_app, Hl. simpl. by rewrite Hrest.
Qed.

Lemma valid_syntax_one_at_witness : count_char "@" "user.name+tag@mail.example.org" = 1%nat.
Proof. exact (valid_syntax_one_at "user.name+tag@mail.example.org" eq_refl). Defined.

(** X2: on a string that [is_valid_syntax] accepts, [extract_domain] returns a
    domain, and that domain holds a dot and no ['@']. *)
Theorem valid_syntax_has_domain (s : string) :
  EmailValidator.is_valid_syntax s = true ->
  exists d, EmailValidator.extract_domain s = Ok (Some d) /\
            PyStr.contains "." d = true /\ PyStr.contains "@" d = false.
Proof.
  intros (l & rest & -> & Hl & _ & Hrest & _ & Hdot & _)%valid_decomposition.
  exists (PyStr.lower rest).
  assert (Hc : PyStr.contains "@" (l +:+ String "@" rest) = true).
  { rewrite contains_app. simpl. apply orb_true_r. }
  unfold EmailValidator.extract_domain.
  rewrite Hc, (split_second _ Hc), (after_first_at_app l rest Hl), (until_at_no_at _ Hrest).
  split; [done|]. split; [|by apply lower_no_at].
  clear -Hdot. induction rest as [|a rest IH]; [done|]. simpl in *.
  destruct (decide (a = "."%char)) as [->|]; [done|].
  destruct (decide (PyStr.lower_char a = "."%char)); [done|by apply IH].
Qed.

Lemma valid_syntax_has_domain_witness :
  exists d, EmailValidator.extract_domain "Jane.Doe@Mail.Example.ORG" = Ok (Some d) /\
            PyStr.contains "." d = true /\ PyStr.contains "@" d = false.
Proof. exact (valid_syntax_has_domain "Jane.Doe@Mail.Example.ORG" eq_refl). Defined.

(** X3: [is_valid_syntax] does not see one line break at the end: an accepted
    string is an address or an address followed by a newline, and the address
    is accepted with and without that newline. *)
Theorem valid_syntax_trailing_newline (s : string) :
  EmailValidator.is_valid_syntax s = true ->
  exists core,
    (s = core \/ s = core +:+ String EmailValidator.newline "") /\
    EmailValidator.is_valid_syntax core = true /\
    EmailValidator.is_valid_syntax (core +:+ String EmailValidator.newline "") = true.
Proof.
  intros (core & Hcore & Hs)%pattern_shape.
  exists core. split; [done|].
  split; apply pattern_shape; exists core; auto.
Qed.

Lemma valid_syntax_trailing_newline_witness :
  exists core,
    ("user@example.com" = core \/ "user@example.com" = core +:+ String EmailValidator.newline "") /\
    EmailValidator.is_valid_syntax core = true /\
    EmailValidator.is_valid_syntax (core +:+ String EmailValidator.newline "") = true.
Proof. exact (valid_syntax_trailing_newline "user@example.com" eq_refl). Defined.

(** X4: [extract_domain] never raises, and a domain it returns is in lower
    case and holds no ['@']. *)
Theorem extract_domain_output (s : string) :
  exists o, EmailValidator.extract_domain s = Ok o /\
    forall d, o = Some d -> PyStr.lower d = d /\ PyStr.contains "@" d = false.
Proof.
  unfold EmailValidator.extract_domain.
  destruct (PyStr.contains "@" s) eqn:Hc.
  - rewrite (split_second s Hc). eexists. split; [done|].
    intros d [= <-]. split; [apply lower_idem|].
    apply lower_no_at, until_at_clean.
  - exists None. split; [done|]. intros d H. discriminate.
Qed.

Lemma extract_domain_output_witness :
  PyStr.lower "b.com" = "b.com" /\ PyStr.contains "@" "b.com" = false.
Proof.
  destruct (extract_domain_output "a@B.COM@c") as (o & Ho & Hd).
  injection Ho as <-. exact (Hd "b.com" eq_refl).
Defined.

(** X5: [is_disposable_domain] ignores the case of letters, and on the
    domain that [extract_domain] returns for [local@domain] it answers as on
    [domain] itself. *)
Theorem disposable_domain_case (local domain : string) :
  EmailValidator.is_disposable_domain (PyStr.lower domain)
    = EmailValidator.is_disposable_domain domain /\
  (PyStr.contains "@" local = false -> PyStr.contains "@" domain = false ->
   exists d, EmailValidator.extract_domain (local +:+ String "@" domain) = Ok (Some d) /\
             EmailValidator.is_disposable_domain d
               = EmailValidator.is_disposable_domain domain).
Proof.
  assert (Hcase : EmailValidator.is_disposable_domain (PyStr.lower domain)
                  = EmailValidator.is_disposable_domain domain).
  { unfold EmailValidator.is_disposable_domain. by rewrite lower_idem. }
  split; [done|]. intros Hl Hd. exists (PyStr.lower domain). split; [|done].
  assert (Hc : PyStr.contains "@" (local +:+ String "@" domain) = true).
  { rewrite contains_app. simpl. apply orb_true_r. }
  unfold EmailValidator.extract_domain.
  by rewrite Hc, (split_second _ Hc), (after_first_at_app local domain Hl),
       (until_at_no_at _ Hd).
Qed.

Lemma disposable_domain_case_witness :
  exists d, EmailValidator.extract_domain "bob@MAILINATOR.com" = Ok (Some d) /\
            EmailValidator.is_disposable_domain d
              = EmailValidator.is_disposable_domain "MAILINATOR.com".
Proof.
  exact (proj2 (disposable_domain_case "bob" "MAILINATOR.com") eq_refl eq_refl).
Defined.

(** ** Building the client and its URLs *)

Lemma last_char_rev_app s : forall t,
  last_char (String.rev_app s t)
  = match last_char t with Some c => Some c | None => first_char s end.
Proof.
  induction s as [|a s IH]; intros t; simpl.
  - by destruct (last_char t).
  - rewrite IH. simpl. by destruct (last_char t).
Qed.

Lemma rev_app_app s1 : forall s2 t,
  String.rev_app (s1 +:+ s2) t = String.rev_app s2 (String.rev_app s1 t).
Proof.
  induction s1 as [|a s1 IH]; intros s2 t; [done|].
  rewrite str_app_cons. simpl. apply IH.
Qed.

Lemma lstrip_first p s c : first_char (PyStr.lstrip_by p s) = Some c -> p c = false.
Proof.
  induction s as [|a s IH]; simpl; [done|].
  destruct (p a) eqn:Hp; [exact IH|]. simpl. by intros [= <-].
Qed.

Lemma rstrip_last p s c : last_char (PyStr.rstrip_by p s) = Some c -> p c = false.
Proof.
  unfold PyStr.rstrip_by, String.rev. rewrite last_char_rev_app. simpl.
  apply lstrip_first.
Qed.

Lemma rstrip_slash_app url :
  PyStr.rstrip_by PyStr.is_slash (url +:+ "/") = PyStr.rstrip_by PyStr.is_slash url.
Proof.
  unfold PyStr.rstrip_by, String.rev at 2 4. by rewrite rev_app_app.
Qed.

Lemma rev_app_spec s : forall t, String.rev_app s t = String.rev s +:+ t.
Proof.
  unfold String.rev. induction s as [|a s IH]; intros t; simpl.
  - by rewrite str_app_nil_l.
  - rewrite (IH (String a t)), (IH (String a "")), str_app_assoc. by str_simpl.
Qed.

Lemma rev_cons a s : String.rev (String a s) = String.rev s +:+ String a "".
Proof. unfold String.rev at 1. simpl. apply rev_app_spec. Qed.

Lemma str_rev_app_distr s1 s2 : String.rev (s1 +:+ s2) = String.rev s2 +:+ String.rev s1.
Proof. unfold String.rev at 1. by rewrite rev_app_app, rev_app_spec. Qed.

Lemma str_rev_involutive s : String.rev (String.rev s) = s.
Proof.
  induction s as [|a s IH]; [done|].
  rewrite rev_cons, str_rev_app_distr, IH. by str_simpl.
Qed.

Lemma all_chars_rev p s : all_chars p (String.rev s) = all_chars p s.
Proof.
  induction s as [|a s IH]; [done|].
  rewrite rev_cons, all_chars_app, IH. simpl. by destruct (p a), (all_chars p s).
Qed.

(** [lstrip] removes a prefix made of the characters to drop, and nothing
    else; [rstrip] does so with a suffix. *)
Lemma lstrip_split p s :
  exists pre, s = pre +:+ PyStr.lstrip_by p s /\ all_chars p pre = true.
Proof.
  induction s as [|a s (pre & Heq & Hall)]; [by exists ""|]. simpl.
  destruct (p a) eqn:Ha.
  - exists (String a pre). str_simpl. split; [by rewrite <- Heq|]. simpl.
    by rewrite Ha, Hall.
  - by exists "".
Qed.

Lemma rstrip_split p s :
  exists suf, s = PyStr.rstrip_by p s +:+ suf /\ all_chars p suf = true.
Proof.
  destruct (lstrip_split p (String.rev s)) as (pre & Heq & Hall).
  exists (String.rev pre). split; [|by rewrite all_chars_rev].
  apply (f_equal String.rev) in Heq.
  by rewrite str_rev_involutive, str_rev_app_distr in Heq.
Qed.

(** X6: the constructor of client.py refuses an empty key; for any other key
    it keeps the key and the timeout, and stores as base URL the given URL
    without the slashes that end it: the URL is the stored base followed by
    slashes only, and the base does not end with one, so that one more slash
    at the end of the URL changes nothing. [_url] is the base, one slash, and
    the path without the slashes it starts with: the path is slashes only
    followed by a rest that does not start with one, and the URL built is the
    base, a slash and that rest. *)
Theorem client_urls (key url : string) (seconds : Q) :
  (key = "" ->
   Client.init key url seconds = Raise (EmailListVerifyError "API key is required")) /\
  (key <> "" ->
   exists c, Client.init key url seconds = Ok c /\
     Client.api_key c = key /\
     Client.timeout c = seconds /\
     (exists slashes, url = Client.base_url c +:+ slashes /\
                      all_chars PyStr.is_slash slashes = true) /\
     last_char (Client.base_url c) <> Some "/"%char /\
     Client.init key (url +:+ "/") seconds = Ok c) /\
  (forall (c : Client.t) (path : string),
     Client._url c (String "/" path) = Client._url c path /\
     exists slashes rest,
       path = slashes +:+ rest /\
       all_chars PyStr.is_slash slashes = true /\
       first_char rest <> Some "/"%char /\
       Client._url c path = Client.base_url c +:+ String "/" rest).
Proof.
  split; [|split].
  - intros ->. reflexivity.
  - intros Hkey. unfold Client.init. rewrite (falsy_false _ Hkey).
    eexists. split; [done|]. split; [done|]. split; [done|]. split; [|split].
    + simpl. apply rstrip_split.
    + simpl. intros Hlast. by apply rstrip_last in Hlast.
    + by rewrite rstrip_slash_app.
  - intros c path. split; [done|].
    destruct (lstrip_split PyStr.is_slash path) as (pre & Heq & Hall).
    exists pre, (PyStr.lstrip_by PyStr.is_slash path).
    split; [done|]. split; [done|]. split; [|done].
    intros Hfirst. by apply lstrip_first in Hfirst.
Qed.

Lemma client_urls_witness :
  exists c, Client.init "KEY" "https://host/api//" 30 = Ok c /\
    Client.api_key c = "KEY" /\
    Client.timeout c = 30%Q /\
    (exists slashes, "https://host/api//" = Client.base_url c +:+ slashes /\
                     all_chars PyStr.is_slash slashes = true) /\
    last_char (Client.base_url c) <> Some "/"%char /\
    Client.init "KEY" ("https://host/api//" +:+ "/") 30 = Ok c.
Proof.
  apply (proj1 (proj2 (client_urls "KEY" "https://host/api//" 30))). discriminate.
Defined.

(** ** Methods that make one call *)

Section SingleCalls.
Context (env : Env) (cal : Calendar) (c : Client.t) (l : Legacy.t) (s : Simple.t).

Lemma requests_of_snoc w r : requests_of (w ++ [EvRequest r]) = requests_of w ++ [r].
Proof. by rewrite requests_of_app. Qed.

Lemma requests_of_now w : requests_of (w ++ [EvNow]) = requests_of w.
Proof. rewrite requests_of_app. apply app_nil_r. Qed.

Lemma client_verify_email_run email w :
  email <> "" ->
  Client.verify_email env c email w
  = (match fst (Client._make_request env c "verifyEmail" "GET"
                  (Some {["email" := email]}) None None w) with
     | Ok v => Ok (format_value env v)
     | Raise e => Raise e
     end,
     w ++ [EvRequest (Client.build_request c "verifyEmail" "GET"
                        (Some {["email" := email]}) None None)]).
Proof.
  intros He. unfold Client.verify_email. rewrite (falsy_false _ He).
  unfold bind. rewrite client_make_request_eq.
  by destruct (fst _).
Qed.

Lemma client_verify_email_detailed_run email w :
  email <> "" ->
  Client.verify_email_detailed env c cal email w
  = let w1 := w ++ [EvRequest (Client.build_request c "verifyEmailDetailed" "GET"
                                 (Some {["email" := email]}) None None)] in
    match fst (Client._make_request env c "verifyEmailDetailed" "GET"
                 (Some {["email" := email]}) None None w) with
    | Ok (JStr status) =>
        (Ok (JObj [("email", JStr email); ("status", JStr status);
                   ("timestamp", JStr (isoformat_now cal (n_now w)))]),
         w1 ++ [EvNow])
    | Ok v => (Ok v, w1)
    | Raise e => (Raise e, w1)
    end.
Proof.
  intros He. unfold Client.verify_email_detailed. rewrite (falsy_false _ He).
  unfold bind. rewrite client_make_request_eq.
  destruct (fst _) as [[| | | |status| |]|e]; try done.
  unfold now_isoformat, ret. simpl. rewrite n_now_app.
  change (n_now [EvRequest _]) with 0%nat. by rewrite Nat.add_0_r.
Qed.

Lemma client_get_credits_run w :
  Client.get_credits env c w
  = (match fst (Client._make_request env c "getCredits" "GET" None None None w) with
     | Ok (JStr credits) => Ok (JObj [("credits", JStr credits)])
     | r => r
     end,
     w ++ [EvRequest (Client.build_request c "getCredits" "GET" None None None)]).
Proof.
  unfold Client.get_credits, bind. rewrite client_make_request_eq.
  by destruct (fst _) as [[| | | |credits| |]|e].
Qed.

Lemma legacy_verify_email_run email w :
  email <> "" ->
  Legacy.verify_email env l cal email w
  = let w1 := w ++ [EvRequest (Legacy.build_request l "verifyEmail" "GET"
                                 (Some {["email" := email]}) None None)] in
    match fst (Legacy._make_request env l "verifyEmail" "GET"
                 (Some {["email" := email]}) None None w) with
    | Ok (JStr status) =>
        (Ok (JObj [("email", JStr email); ("status", JStr (PyStr.strip status));
                   ("timestamp", JStr (isoformat_now cal (n_now w)))]),
         w1 ++ [EvNow])
    | Ok v => (Ok v, w1)
    | Raise e => (Raise e, w1)
    end.
Proof.
  intros He. unfold Legacy.verify_email. rewrite (falsy_false _ He).
  unfold bind. rewrite legacy_make_request_eq.
  destruct (fst _) as [[| | | |status| |]|e]; try done.
  unfold now_isoformat, ret. simpl. rewrite n_now_app.
  change (n_now [EvRequest _]) with 0%nat. by rewrite Nat.add_0_r.
Qed.

Lemma simple_verify_email_run email w :
  email <> "" ->
  Simple.verify_email env s email w
  = (match http env (n_requests w) (Simple.build_request s email) with
     | TransportFailure cause => Raise (RequestFailed cause)
     | Responded r =>
         match raise_for_status r with
         | Some cause => Raise (RequestFailed cause)
         | None => Ok (PyStr.strip (text r))
         end
     end,
     w ++ [EvRequest (Simple.build_request s email)]).
Proof.
  intros He. unfold Simple.verify_email. rewrite (falsy_false _ He).
  unfold_monad.
  destruct (http env _ _) as [r|cause]; simpl; [|done].
  by destruct (raise_for_status r).
Qed.

End SingleCalls.

(** X7: the methods that verify one email or read one status make no request
    for an empty argument, which they refuse, and exactly one for any other:
    a GET to their endpoint that carries the argument; [get_credits] always
    makes exactly one. *)
Theorem single_call_requests env (cal : Calendar) (c : Client.t) (l : Legacy.t)
    (s : Simple.t) (arg : string) (w : World) :
  (arg = "" ->
   Client.verify_email env c arg w
     = (Raise (EmailListVerifyError "Email address is required"), w) /\
   Client.verify_email_detailed env c cal arg w
     = (Raise (EmailListVerifyError "Email address is required"), w) /\
   Client.get_bulk_status env c arg w
     = (Raise (EmailListVerifyError "File ID is required"), w) /\
   Legacy.verify_email env l cal arg w
     = (Raise (EmailListVerifyError "Email address is required"), w) /\
   Legacy.verify_email_detailed env l arg w
     = (Raise (EmailListVerifyError "Email address is required"), w) /\
   Legacy.get_bulk_status env l arg w
     = (Raise (EmailListVerifyError "File ID is required"), w) /\
   Simple.verify_email env s arg w
     = (Raise (EmailListVerifyError "Email address is required"), w)) /\
  (arg <> "" ->
   requests_of (snd (Client.verify_email env c arg w))
     = requests_of w ++ [Client.build_request c "verifyEmail" "GET"
                           (Some {["email" := arg]}) None None] /\
   requests_of (snd (Client.verify_email_detailed env c cal arg w))
     = requests_of w ++ [Client.build_request c "verifyEmailDetailed" "GET"
                           (Some {["email" := arg]}) None None] /\
   requests_of (snd (Client.get_bulk_status env c arg w))
     = requests_of w ++ [Client.build_request c "getApiFileInfo" "GET"
                           (Some {["file_id" := arg]}) None None] /\
   requests_of (snd (Legacy.verify_email env l cal arg w))
     = requests_of w ++ [Legacy.build_request l "verifyEmail" "GET"
                           (Some {["email" := arg]}) None None] /\
   requests_of (snd (Legacy.verify_email_detailed env l arg w))
     = requests_of w ++ [Legacy.build_request l "verifyEmailDetailed" "GET"
                           (Some {["email" := arg]}) None None] /\
   requests_of (snd (Legacy.get_bulk_status env l arg w))
     = requests_of w ++ [Legacy.build_request l "getApiFileInfo" "GET"
                           (Some {["file_id" := arg]}) None None] /\
   requests_of (snd (Simple.verify_email env s arg w))
     = requests_of w ++ [Simple.build_request s arg]) /\
  requests_of (snd (Client.get_credits env c w))
    = requests_of w ++ [Client.build_request c "getCredits" "GET" None None None] /\
  requests_of (snd (Legacy.get_credits env l w))
    = requests_of w ++ [Legacy.build_request l "getCredits" "GET" None None None].
Proof.
  split; [|split; [|split]].
  - intros ->. repeat split; reflexivity.
  - intros Harg.
    rewrite (client_verify_email_run env c arg w Harg).
    rewrite (client_verify_email_detailed_run env cal c arg w Harg).
    rewrite (legacy_verify_email_run env cal l arg w Harg).
    rewrite (simple_verify_email_run env s arg w Harg).
    unfold Client.get_bulk_status, Legacy.get_bulk_status, Legacy.verify_email_detailed.
    rewrite (falsy_false _ Harg).
    rewrite client_make_request_trace, !legacy_make_request_trace. cbv zeta.
    repeat split; try apply requests_of_snoc.
    + destruct (fst _) as [[| | | |status| |]|e]; simpl;
        rewrite ?requests_of_now; apply requests_of_snoc.
    + destruct (fst _) as [[| | | |status| |]|e]; simpl;
        rewrite ?requests_of_now; apply requests_of_snoc.
  - rewrite client_get_credits_run. apply requests_of_snoc.
  - unfold Legacy.get_credits. rewrite legacy_make_request_trace. apply requests_of_snoc.
Qed.

Lemma single_call_requests_witness :
  let env := Sample.scripted [Responded (Sample.ok_text "ok")] [] 0 in
  let cal := {| isoformat_now := fun _ => "2024-01-01T12:00:00" |} in
  requests_of (snd (Legacy.verify_email env Sample.legacy cal "a@x.com" []))
  = [] ++ [Legacy.build_request Sample.legacy "verifyEmail" "GET"
             (Some {["email" := "a@x.com"]}) None None].
Proof.
  intros env cal.
  apply (proj1 (proj2 (single_call_requests env cal Sample.client Sample.legacy
                         Sample.simple "a@x.com" []))).
  discriminate.
Defined.

(** X8: when the service accepts the request and answers with a body that is
    not JSON, every client reports the trimmed text: [verify_email] of
    client.py and of emaillistverify/__init__.py return it, [verify_email] of
    emaillistverify.py and [verify_email_detailed] of client.py wrap it, with
    the email and a timestamp, in a record, and [get_credits] of client.py
    wraps it under [credits]. *)
Theorem plain_text_replies env (cal : Calendar) (c : Client.t) (l : Legacy.t)
    (s : Simple.t) (email : string) (w : World) (r : Response) :
  email <> "" ->
  (forall req, http env (n_requests w) req = Responded r) ->
  status_code r <> 401%Z ->
  raise_for_status r = None ->
  json_body r = None ->
  let status := PyStr.strip (text r) in
  let record := JObj [("email", JStr email); ("status", JStr status);
                      ("timestamp", JStr (isoformat_now cal (n_now w)))] in
  fst (Client.verify_email env c email w) = Ok status /\
  fst (Simple.verify_email env s email w) = Ok status /\
  fst (Legacy.verify_email env l cal email w) = Ok record /\
  fst (Client.verify_email_detailed env c cal email w) = Ok record /\
  fst (Client.get_credits env c w) = Ok (JObj [("credits", JStr status)]).
Proof.
  intros He Hr H401 Hacc Hbody status record.
  rewrite (client_verify_email_run env c email w He).
  rewrite (simple_verify_email_run env s email w He).
  rewrite (legacy_verify_email_run env cal l email w He).
  rewrite (client_verify_email_detailed_run env cal c email w He).
  rewrite client_get_credits_run.
  rewrite !client_make_request_result, legacy_make_request_result, !Hr.
  rewrite (proj2 (Z.eqb_neq _ _) H401), Hacc, Hbody. simpl.
  repeat split.
Qed.

Lemma plain_text_replies_witness :
  let env := Sample.scripted [Responded (Sample.ok_text " ok ")] [] 0 in
  let cal := {| isoformat_now := fun _ => "2024-01-01T12:00:00" |} in
  fst (Client.verify_email env Sample.client "a@x.com" []) = Ok "ok" /\
  fst (Simple.verify_email env Sample.simple "a@x.com" []) = Ok "ok" /\
  fst (Legacy.verify_email env Sample.legacy cal "a@x.com" [])
    = Ok (JObj [("email", JStr "a@x.com"); ("status", JStr "ok");
                ("timestamp", JStr "2024-01-01T12:00:00")]) /\
  fst (Client.verify_email_detailed env Sample.client cal "a@x.com" [])
    = Ok (JObj [("email", JStr "a@x.com"); ("status", JStr "ok");
                ("timestamp", JStr "2024-01-01T12:00:00")]) /\
  fst (Client.get_credits env Sample.client []) = Ok (JObj [("credits", JStr "ok")]).
Proof.
  intros env cal.
  refine (plain_text_replies env cal Sample.client Sample.legacy Sample.simple
            "a@x.com" [] (Sample.ok_text " ok ") _ (fun _ => eq_refl) _ eq_refl eq_refl);
    discriminate.
Defined.

(** X9: [get_credits] and [verify_email_detailed] of client.py, and
    [verify_email] of emaillistverify.py, never return a bare string: a string
    that the transport hands them comes back inside a record. *)
Theorem structured_results env (cal : Calendar) (c : Client.t) (l : Legacy.t)
    (email : string) (w : World) (v : json) :
  (fst (Client.get_credits env c w) = Ok v -> forall t, v <> JStr t) /\
  (fst (Client.verify_email_detailed env c cal email w) = Ok v -> forall t, v <> JStr t) /\
  (fst (Legacy.verify_email env l cal email w) = Ok v -> forall t, v <> JStr t).
Proof.
  split; [|split].
  - rewrite client_get_credits_run. simpl.
    destruct (fst _) as [[| | | |credits| |]|e]; intros [= <-] t; discriminate.
  - destruct (decide (email = "")) as [->|He]; [discriminate|].
    rewrite (client_verify_email_detailed_run env cal c email w He). cbv zeta.
    destruct (fst (Client._make_request _ _ _ _ _ _ _ _)) as [[| | | |status| |]|e];
      simpl; intros [= <-] t; discriminate.
  - destruct (decide (email = "")) as [->|He]; [discriminate|].
    rewrite (legacy_verify_email_run env cal l email w He). cbv zeta.
    destruct (fst (Legacy._make_request _ _ _ _ _ _ _ _)) as [[| | | |status| |]|e];
      simpl; intros [= <-] t; discriminate.
Qed.

Lemma structured_results_witness :
  let env := Sample.scripted [Responded (Sample.ok_json (JStr "1500"))] [] 0 in
  fst (Client.get_credits env Sample.client []) = Ok (JObj [("credits", JStr "1500")]) /\
  JObj [("credits", JStr "1500")] <> JStr "1500".
Proof.
  intros env. split; [reflexivity|].
  exact (proj1 (structured_results env {| isoformat_now := fun _ => "" |}
                  Sample.client Sample.legacy "a@x.com" []
                  (JObj [("credits", JStr "1500")])) eq_refl "1500").
Defined.

(** ** The request of an upload *)

(** X10: for a file that exists, [bulk_upload] makes exactly one request, a
    POST to verifApiFile, whatever the service answers. The name it sends as
    the [filename] parameter is also the file name of the [file_contents]
    part, whose content is the content of the file; the name is the one the
    caller gave, else [bulk_verify_<timestamp>.csv]. When the file cannot be
    opened, the error of [open] escapes and no request is made. *)
Theorem bulk_upload_request env (c : Client.t) (l : Legacy.t) (w : World)
    (file_path : string) (filename : option string) :
  path_exists env file_path = true ->
  let name := default ("bulk_verify_" +:+ strftime_now env (n_now w) +:+ ".csv") filename in
  (forall bytes, file_content env file_path = Some bytes ->
     let part := {| part_filename := name; part_content := bytes;
                    part_type := "text/csv" |} in
     requests_of (snd (Client.bulk_upload env c file_path filename w))
       = requests_of w ++ [Client.build_request c "verifApiFile" "POST"
                             (Some {["filename" := name]}) None
                             (Some {["file_contents" := part]})] /\
     requests_of (snd (Legacy.bulk_upload env l file_path filename w))
       = requests_of w ++ [Legacy.build_request l "verifApiFile" "POST"
                             (Some {["filename" := name]}) None
                             (Some {["file_contents" := part]})]) /\
  (file_content env file_path = None ->
     fst (Client.bulk_upload env c file_path filename w) = Raise (OSError file_path) /\
     fst (Legacy.bulk_upload env l file_path filename w) = Raise (OSError file_path) /\
     requests_of (snd (Client.bulk_upload env c file_path filename w)) = requests_of w /\
     requests_of (snd (Legacy.bulk_upload env l file_path filename w)) = requests_of w).
Proof.
  intros Hex name. subst name. split.
  - intros bytes Hbytes part. subst part.
    unfold Client.bulk_upload, Legacy.bulk_upload. rewrite Hex. simpl.
    unfold_monad. rewrite Hbytes.
    destruct filename as [name|]; simpl;
      rewrite client_make_request_eq, legacy_make_request_eq.
    + split.
      * destruct (fst (Client._make_request _ _ _ _ _ _ _ _)) as [[| | | | | |d]|e];
          simpl; try apply requests_of_snoc.
        destruct (dict_get "file_id" d); apply requests_of_snoc.
      * destruct (fst (Legacy._make_request _ _ _ _ _ _ _ _)) as [[| | | | | |d]|e];
          simpl; try apply requests_of_snoc.
        destruct (dict_get "file_id" d); apply requests_of_snoc.
    + split.
      * destruct (fst (Client._make_request _ _ _ _ _ _ _ _)) as [[| | | | | |d]|e];
          simpl; rewrite ?requests_of_snoc, ?requests_of_now; try done.
        destruct (dict_get "file_id" d); simpl;
          by rewrite requests_of_snoc, requests_of_now.
      * destruct (fst (Legacy._make_request _ _ _ _ _ _ _ _)) as [[| | | | | |d]|e];
          simpl; rewrite ?requests_of_snoc, ?requests_of_now; try done.
        destruct (dict_get "file_id" d); simpl;
          by rewrite requests_of_snoc, requests_of_now.
  - intros Hnone.
    unfold Client.bulk_upload, Legacy.bulk_upload. rewrite Hex. simpl.
    unfold_monad. rewrite Hnone.
    destruct filename as [name|]; simpl; rewrite ?requests_of_now; done.
Qed.

Lemma bulk_upload_request_witness :
  let env := Sample.scripted [TransportFailure "connection reset"] [] 0 in
  let part := {| part_filename := "bulk_verify_20240101_120000.csv";
                 part_content := "a@x.com"; part_type := "text/csv" |} in
  requests_of (snd (Client.bulk_upload env Sample.client "emails.csv" None []))
  = [] ++ [Client.build_request Sample.client "verifApiFile" "POST"
             (Some {["filename" := "bulk_verify_20240101_120000.csv"]}) None
             (Some {["file_contents" := part]})].
Proof.
  intros env part.
  exact (proj1 (proj1 (bulk_upload_request env Sample.client Sample.legacy []
                         "emails.csv" None eq_refl) "a@x.com" eq_refl)).
Defined.

(** ** What a list of verifications costs *)

Lemma sleeps_of_app w1 w2 : sleeps_of (w1 ++ w2) = sleeps_of w1 ++ sleeps_of w2.
Proof. unfold sleeps_of. apply omap_app. Qed.

Section Cost.
Context (verify_email : string -> M string) (delay : Q).
Hypothesis Hsdk : forall email, raises_sdk_only (verify_email email).
Hypothesis Hreq : forall email w,
  n_requests (snd (verify_email email w))
  = (n_requests w + if PyStr.falsy email then 0 else 1)%nat.
Hypothesis Hquiet : forall email w, sleeps_of (snd (verify_email email w)) = sleeps_of w.

Lemma after_pause_requests w : n_requests (after_pause delay w) = n_requests w.
Proof using Type.
  unfold after_pause. destruct (Qltb 0 delay); [|done].
  rewrite n_requests_app. change (n_requests [EvSleep delay]) with 0%nat. lia.
Qed.

Lemma after_pause_sleeps w :
  sleeps_of (after_pause delay w)
  = sleeps_of w ++ (if Qltb 0 delay then [delay] else []).
Proof using Type.
  unfold after_pause. destruct (Qltb 0 delay); [|by rewrite app_nil_r].
  by rewrite sleeps_of_app.
Qed.

Lemma verify_emails_from_cost emails : forall results w,
  let w' := snd (Common.verify_emails_from verify_email results emails delay w) in
  n_requests w' = (n_requests w + length (filter (fun e => e <> "") emails))%nat /\
  exists k, (k <= length emails)%nat /\
            sleeps_of w' = sleeps_of w ++ replicate k delay /\
            (Qltb 0 delay = false -> k = 0%nat).
Proof using Hsdk Hreq Hquiet.
  induction emails as [|email rest IH]; intros results w; cbv zeta.
  - simpl. split; [lia|]. exists 0%nat. split; [lia|]. split; [|done].
    by rewrite app_nil_r.
  - cbn [Common.verify_emails_from]. unfold bind at 1. unfold try_except_sdk, bind.
    pose proof (Hsdk email w) as Honly. pose proof (Hreq email w) as Hn.
    pose proof (Hquiet email w) as Hs.
    destruct (verify_email email w) as [[status|e] w1]; simpl in Honly, Hn, Hs.
    + rewrite pause_after_success. unfold ret at 1. simpl.
      destruct (IH (<[email := status]> results) (after_pause delay w1))
        as (Hcount & k & Hk & Hsleeps & Hzero).
      split.
      * rewrite Hcount, after_pause_requests, Hn, filter_cons.
        unfold PyStr.falsy. destruct (decide (email <> "")) as [Hne|Heq].
        -- rewrite (bool_decide_eq_false_2 _ Hne). simpl. lia.
        -- apply dec_stable in Heq. rewrite (bool_decide_eq_true_2 _ Heq). simpl. lia.
      * destruct (Qltb 0 delay) eqn:Hd.
        -- exists (S k). split; [simpl; lia|]. split; [|done].
           rewrite Hsleeps, after_pause_sleeps, Hs, Hd. by rewrite <- app_assoc.
        -- exists k. split; [simpl; lia|]. split; [|done].
           by rewrite Hsleeps, after_pause_sleeps, Hs, Hd, app_nil_r.
    + destruct e as [msg| | | | |]; try done. unfold ret at 1. simpl.
      destruct (IH (<[email := "error: " +:+ msg]> results) w1)
        as (Hcount & k & Hk & Hsleeps & Hzero).
      split.
      * rewrite Hcount, Hn, filter_cons.
        unfold PyStr.falsy. destruct (decide (email <> "")) as [Hne|Heq].
        -- rewrite (bool_decide_eq_false_2 _ Hne). simpl. lia.
        -- apply dec_stable in Heq. rewrite (bool_decide_eq_true_2 _ Heq). simpl. lia.
      * exists k. split; [simpl; lia|]. split; [by rewrite Hsleeps, Hs|done].
Qed.

End Cost.

Lemma client_verify_email_cost env (c : Client.t) email w :
  n_requests (snd (Client.verify_email env c email w))
    = (n_requests w + if PyStr.falsy email then 0 else 1)%nat /\
  sleeps_of (snd (Client.verify_email env c email w)) = sleeps_of w.
Proof.
  destruct (decide (email = "")) as [->|He].
  - simpl. split; [lia|done].
  - rewrite (client_verify_email_run env c email w He), (falsy_false _ He). simpl.
    rewrite n_requests_app, sleeps_of_app. simpl. split; [done|apply app_nil_r].
Qed.

Lemma simple_verify_email_cost env (s : Simple.t) email w :
  n_requests (snd (Simple.verify_email env s email w))
    = (n_requests w + if PyStr.falsy email then 0 else 1)%nat /\
  sleeps_of (snd (Simple.verify_email env s email w)) = sleeps_of w.
Proof.
  destruct (decide (email = "")) as [->|He].
  - simpl. split; [lia|done].
  - rewrite (simple_verify_email_run env s email w He), (falsy_false _ He). simpl.
    rewrite n_requests_app, sleeps_of_app. simpl. split; [done|apply app_nil_r].
Qed.

(** X11: [verify_emails] makes one request per email of the list that is not
    the empty string, and pauses at most once per email, each time for
    [delay]; with a [delay] of zero or less it never pauses. This holds in
    client.py and in emaillistverify/__init__.py. *)
Theorem verify_emails_cost env (c : Client.t) (s : Simple.t)
    (emails : list string) (delay : Q) (w : World) :
  let wc := snd (Client.verify_emails env c emails delay w) in
  let ws := snd (Simple.verify_emails env s emails delay w) in
  n_requests wc = (n_requests w + length (filter (fun e => e <> "") emails))%nat /\
  n_requests ws = (n_requests w + length (filter (fun e => e <> "") emails))%nat /\
  (exists k, (k <= length emails)%nat /\ sleeps_of wc = sleeps_of w ++ replicate k delay) /\
  (exists k, (k <= length emails)%nat /\ sleeps_of ws = sleeps_of w ++ replicate k delay) /\
  ((delay <= 0)%Q -> sleeps_of wc = sleeps_of w /\ sleeps_of ws = sleeps_of w).
Proof.
  intros wc ws.
  destruct (verify_emails_from_cost (Client.verify_email env c) delay
              (client_verify_email_sdk_only env c)
              (fun e w0 => proj1 (client_verify_email_cost env c e w0))
              (fun e w0 => proj2 (client_verify_email_cost env c e w0))
              emails ∅ w) as (Hc1 & kc & Hkc & Hc2 & Hc3).
  destruct (verify_emails_from_cost (Simple.verify_email env s) delay
              (simple_verify_email_sdk_only env s)
              (fun e w0 => proj1 (simple_verify_email_cost env s e w0))
              (fun e w0 => proj2 (simple_verify_email_cost env s e w0))
              emails ∅ w) as (Hs1 & ks & Hks & Hs2 & Hs3).
  split; [exact Hc1|]. split; [exact Hs1|].
  split; [by exists kc|]. split; [by exists ks|].
  intros Hd%Qltb_false.
  subst wc ws. unfold Client.verify_emails, Simple.verify_emails, Common.verify_emails.
  rewrite Hc2, Hs2, (Hc3 Hd), (Hs3 Hd). simpl. by rewrite !app_nil_r.
Qed.

Lemma verify_emails_cost_witness :
  let env := Sample.scripted [Responded (Sample.ok_text "ok")] [] 0 in
  sleeps_of (snd (Client.verify_emails env Sample.client ["a@x.com"; ""; "b@x.com"] 0 []))
    = sleeps_of [] /\
  sleeps_of (snd (Simple.verify_emails env Sample.simple ["a@x.com"; ""; "b@x.com"] 0 []))
    = sleeps_of [].
Proof.
  intros env.
  apply (verify_emails_cost env Sample.client Sample.simple ["a@x.com"; ""; "b@x.com"] 0 []).
  discriminate.
Defined.

(** ** A poll that does not return a record *)

Section WaitAbort.
Context (env : Env) (get_bulk_status : string -> M json).
Context (file_id : string) (check_interval max_wait : Z).
Context (req : Request) (recs : nat -> record) (w : World) (k : nat).

Hypothesis Hinterval : (0 <= check_interval)%Z.
Hypothesis Hpoll : forall j w1,
  (j < k)%nat -> n_requests w1 = (n_requests w + j)%nat ->
  get_bulk_status file_id w1 = (Ok (JObj (recs j)), w1 ++ [EvRequest req]).
Hypothesis Hall : forall j, (j < k)%nat ->
  within env (n_time w) max_wait j = true /\ non_terminal (recs j) = true.
Hypothesis Hin : within env (n_time w) max_wait k = true.

Let cond := Common.within_bound env (clock env (n_time w)) max_wait.
Let body := Common.poll_once env get_bulk_status file_id check_interval.

Lemma while_rounds_bounded n : forall j w1 fuel,
  (j + n <= k)%nat -> at_test w j w1 ->
  while (n + fuel) cond body w1 = while fuel cond body (w1 ++ rounds n req check_interval).
Proof using Hinterval Hpoll Hall.
  induction n as [|n IH]; intros j w1 fuel Hj Hat.
  - simpl. by rewrite app_nil_r.
  - change (S n + fuel)%nat with (S (n + fuel)). rewrite while_S.
    unfold cond at 1. rewrite (cond_at env max_wait w j w1 Hat).
    destruct (Hall j ltac:(lia)) as [Hinj Hnt]. rewrite Hinj.
    assert (Hbody : body (w1 ++ [EvTime]) = (Ok None, w1 ++ round req check_interval)).
    { unfold body, Common.poll_once, bind.
      rewrite (Hpoll j) by (lia || by eapply test_requests). simpl.
      unfold non_terminal, is_completed, is_failed in Hnt.
      apply andb_true_iff in Hnt as [Hc%negb_true_iff Hf%negb_true_iff].
      rewrite Hc, Hf, sleep_nonnegative by done. unfold ret, round.
      by rewrite <- !app_assoc. }
    rewrite Hbody.
    rewrite (IH (S j) _ fuel ltac:(lia) (at_test_round check_interval req w j w1 Hat)).
    simpl rounds. by rewrite <- app_assoc.
Qed.

(** The poll of round [k] raises: the loop ends there, with that exception. *)
Lemma wait_abort e tail fuel :
  body (w ++ [EvTime] ++ rounds k req check_interval ++ [EvTime])
    = (Raise e, w ++ [EvTime] ++ rounds k req check_interval ++ [EvTime] ++ tail) ->
  (k < fuel)%nat ->
  Common.wait_for_bulk_completion env get_bulk_status fuel file_id
    check_interval max_wait w
  = Some (Raise e, w ++ [EvTime] ++ rounds k req check_interval ++ [EvTime] ++ tail).
Proof using Hinterval Hpoll Hall Hin.
  intros Hbody Hfuel.
  unfold Common.wait_for_bulk_completion, time_time.
  fold cond. fold body.
  replace fuel with (k + S (fuel - S k))%nat by lia.
  rewrite (while_rounds_bounded k 0%nat (w ++ [EvTime]) _ ltac:(lia) (at_test_start w)).
  pose proof (at_test_rounds check_interval req w k) as Hat. rewrite app_assoc in Hat.
  rewrite while_S. unfold cond at 1.
  rewrite (cond_at env max_wait w k _ Hat), Hin.
  rewrite <- !app_assoc. by rewrite Hbody.
Qed.

End WaitAbort.

Section PollOutcomes.
Context (env : Env) (file_id : string) (w1 : World).
Hypothesis Hfile : file_id <> "".

Lemma client_poll_record (c : Client.t) d :
  answers_record env (n_requests w1) d ->
  Client.get_bulk_status env c file_id w1
  = (Ok (JObj d),
     w1 ++ [EvRequest (Client.build_request c "getApiFileInfo" "GET"
                         (Some {["file_id" := file_id]}) None None)]).
Proof using Hfile.
  intros (r & Hr & H401 & Hacc & Hbody).
  unfold Client.get_bulk_status. rewrite (falsy_false _ Hfile).
  rewrite client_make_request_eq. f_equal.
  rewrite client_make_request_result.
  by rewrite Hr, (proj2 (Z.eqb_neq _ _) H401), Hacc, Hbody.
Qed.

Lemma legacy_poll_record (l : Legacy.t) d :
  answers_record env (n_requests w1) d ->
  Legacy.get_bulk_status env l file_id w1
  = (Ok (JObj d),
     w1 ++ [EvRequest (Legacy.build_request l "getApiFileInfo" "GET"
                         (Some {["file_id" := file_id]}) None None)]).
Proof using Hfile.
  intros (r & Hr & H401 & Hacc & Hbody).
  unfold Legacy.get_bulk_status. rewrite (falsy_false _ Hfile).
  rewrite legacy_make_request_eq. f_equal.
  rewrite legacy_make_request_result.
  by rewrite Hr, Hacc, Hbody.
Qed.

(** The loop body, when the transport cannot reach the service. *)
Lemma client_poll_once_unreachable (c : Client.t) ci cause :
  (forall req, http env (n_requests w1) req = TransportFailure cause) ->
  Common.poll_once env (Client.get_bulk_status env c) file_id ci w1
  = (Raise (RequestFailed cause),
     w1 ++ [EvRequest (Client.build_request c "getApiFileInfo" "GET"
                         (Some {["file_id" := file_id]}) None None)]).
Proof using Hfile.
  intros Hr. unfold Common.poll_once, bind, Client.get_bulk_status.
  rewrite (falsy_false _ Hfile), client_make_request_eq, client_make_request_result.
  by rewrite Hr.
Qed.

Lemma legacy_poll_once_unreachable (l : Legacy.t) ci cause :
  (forall req, http env (n_requests w1) req = TransportFailure cause) ->
  Common.poll_once env (Legacy.get_bulk_status env l) file_id ci w1
  = (Raise (RequestFailed cause),
     w1 ++ [EvRequest (Legacy.build_request l "getApiFileInfo" "GET"
                         (Some {["file_id" := file_id]}) None None)]).
Proof using Hfile.
  intros Hr. unfold Common.poll_once, bind, Legacy.get_bulk_status.
  rewrite (falsy_false _ Hfile), legacy_make_request_eq, legacy_make_request_result.
  by rewrite Hr.
Qed.

(** The loop body, when the accepted reply is not a JSON object. *)
Lemma client_poll_once_not_a_record (c : Client.t) ci r :
  (forall req, http env (n_requests w1) req = Responded r) ->
  status_code r <> 401%Z -> raise_for_status r = None ->
  (forall d, json_body r <> Some (JObj d)) ->
  exists msg,
    Common.poll_once env (Client.get_bulk_status env c) file_id ci w1
    = (Raise (AttributeError msg),
       w1 ++ [EvRequest (Client.build_request c "getApiFileInfo" "GET"
                           (Some {["file_id" := file_id]}) None None)]).
Proof using Hfile.
  intros Hr H401 Hacc Hbody. exists "get".
  unfold Common.poll_once, bind, Client.get_bulk_status.
  rewrite (falsy_false _ Hfile), client_make_request_eq, client_make_request_result.
  rewrite Hr, (proj2 (Z.eqb_neq _ _) H401), Hacc.
  destruct (json_body r) as [[| | | | | |d]|]; try done.
  by destruct (Hbody d).
Qed.

Lemma legacy_poll_once_not_a_record (l : Legacy.t) ci r :
  (forall req, http env (n_requests w1) req = Responded r) ->
  raise_for_status r = None ->
  (forall d, json_body r <> Some (JObj d)) ->
  exists msg,
    Common.poll_once env (Legacy.get_bulk_status env l) file_id ci w1
    = (Raise (AttributeError msg),
       w1 ++ [EvRequest (Legacy.build_request l "getApiFileInfo" "GET"
                           (Some {["file_id" := file_id]}) None None)]).
Proof using Hfile.
  intros Hr Hacc Hbody. exists "get".
  unfold Common.poll_once, bind, Legacy.get_bulk_status.
  rewrite (falsy_false _ Hfile), legacy_make_request_eq, legacy_make_request_result.
  rewrite Hr, Hacc.
  destruct (json_body r) as [[| | | | | |d]|]; try done.
  by destruct (Hbody d).
Qed.

End PollOutcomes.

Lemma n_requests_at_round w k req ci :
  n_requests (w ++ [EvTime] ++ rounds k req ci ++ [EvTime]) = (n_requests w + k)%nat.
Proof.
  rewrite !n_requests_app, n_requests_rounds.
  change (n_requests [EvTime]) with 0%nat. lia.
Qed.

(** X12: the polling loop does not retry a poll that fails. If, after [k]
    polls that observed a non-terminal status, the transport cannot reach the
    service, [wait_for_bulk_completion] raises the request-failed error of
    that poll, and that poll is its last action, although the bound is not
    reached. *)
Theorem wait_poll_failure env (c : Client.t) (l : Legacy.t) (file_id : string)
    (check_interval max_wait : Z) (recs : nat -> record) (w : World)
    (k fuel : nat) (cause : string) :
  file_id <> "" ->
  (0 <= check_interval)%Z ->
  (forall j, (j < k)%nat -> answers_record env (n_requests w + j) (recs j)) ->
  (forall j, (j < k)%nat ->
     within env (n_time w) max_wait j = true /\ non_terminal (recs j) = true) ->
  within env (n_time w) max_wait k = true ->
  (forall req, http env (n_requests w + k) req = TransportFailure cause) ->
  (k < fuel)%nat ->
  let creq := Client.build_request c "getApiFileInfo" "GET"
                (Some {["file_id" := file_id]}) None None in
  let lreq := Legacy.build_request l "getApiFileInfo" "GET"
                (Some {["file_id" := file_id]}) None None in
  Client.wait_for_bulk_completion env c fuel file_id check_interval max_wait w
    = Some (Raise (RequestFailed cause),
            w ++ [EvTime] ++ rounds k creq check_interval ++ [EvTime] ++ [EvRequest creq]) /\
  Legacy.wait_for_bulk_completion env l fuel file_id check_interval max_wait w
    = Some (Raise (RequestFailed cause),
            w ++ [EvTime] ++ rounds k lreq check_interval ++ [EvTime] ++ [EvRequest lreq]).
Proof.
  intros Hfile Hci Hrecs Hall Hin Hdown Hfuel creq lreq. split.
  - apply (wait_abort env (Client.get_bulk_status env c) file_id check_interval
             max_wait creq recs w k Hci); try done.
    + intros j w1 Hj Hn. apply client_poll_record; [done|]. rewrite Hn. by apply Hrecs.
    + rewrite !app_assoc. rewrite client_poll_once_unreachable with (cause := cause);
        [done|done|].
      rewrite <- !app_assoc, n_requests_at_round. exact Hdown.
  - apply (wait_abort env (Legacy.get_bulk_status env l) file_id check_interval
             max_wait lreq recs w k Hci); try done.
    + intros j w1 Hj Hn. apply legacy_poll_record; [done|]. rewrite Hn. by apply Hrecs.
    + rewrite !app_assoc. rewrite legacy_poll_once_unreachable with (cause := cause);
        [done|done|].
      rewrite <- !app_assoc, n_requests_at_round. exact Hdown.
Qed.

Lemma wait_poll_failure_witness :
  let env := Sample.scripted
               [Responded (Sample.ok_json (JObj Sample.processing))]
               [0%Q; 1%Q; 11%Q] 12 in
  let creq := Client.build_request Sample.client "getApiFileInfo" "GET"
                (Some {["file_id" := "f-1"]}) None None in
  Client.wait_for_bulk_completion env Sample.client 2 "f-1" 10 3600 []
  = Some (Raise (RequestFailed "connection refused"),
          [] ++ [EvTime] ++ rounds 1 creq 10 ++ [EvTime] ++ [EvRequest creq]).
Proof.
  intros env creq.
  refine (proj1 (wait_poll_failure env Sample.client Sample.legacy "f-1" 10 3600
                   (fun _ => Sample.processing) [] 1 2 "connection refused"
                   _ _ _ _ _ _ _)).
  - discriminate.
  - discriminate.
  - intros j Hj. replace j with 0%nat by lia.
    exists (Sample.ok_json (JObj Sample.processing)).
    split; [intros req; reflexivity|]. split; [discriminate|]. split; reflexivity.
  - intros j Hj. replace j with 0%nat by lia. split; reflexivity.
  - reflexivity.
  - intros req. reflexivity.
  - apply le_n.
Defined.

(** X13: a status reply that is accepted but is not a JSON object (plain text,
    a JSON string, a list) makes [wait_for_bulk_completion] raise
    AttributeError, which is not the exception of the SDK, at the poll that
    receives it. *)
Theorem wait_reply_not_a_record env (c : Client.t) (l : Legacy.t) (file_id : string)
    (check_interval max_wait : Z) (recs : nat -> record) (w : World)
    (k fuel : nat) (r : Response) :
  file_id <> "" ->
  (0 <= check_interval)%Z ->
  (forall j, (j < k)%nat -> answers_record env (n_requests w + j) (recs j)) ->
  (forall j, (j < k)%nat ->
     within env (n_time w) max_wait j = true /\ non_terminal (recs j) = true) ->
  within env (n_time w) max_wait k = true ->
  (forall req, http env (n_requests w + k) req = Responded r) ->
  status_code r <> 401%Z ->
  raise_for_status r = None ->
  (forall d, json_body r <> Some (JObj d)) ->
  (k < fuel)%nat ->
  (exists msg w',
     Client.wait_for_bulk_completion env c fuel file_id check_interval max_wait w
       = Some (Raise (AttributeError msg), w') /\
     n_requests w' = (n_requests w + S k)%nat) /\
  (exists msg w',
     Legacy.wait_for_bulk_completion env l fuel file_id check_interval max_wait w
       = Some (Raise (AttributeError msg), w') /\
     n_requests w' = (n_requests w + S k)%nat).
Proof.
  intros Hfile Hci Hrecs Hall Hin Hreply H401 Hacc Hbody Hfuel.
  set (creq := Client.build_request c "getApiFileInfo" "GET"
                 (Some {["file_id" := file_id]}) None None).
  set (lreq := Legacy.build_request l "getApiFileInfo" "GET"
                 (Some {["file_id" := file_id]}) None None).
  split.
  - destruct (client_poll_once_not_a_record env file_id
                (w ++ [EvTime] ++ rounds k creq check_interval ++ [EvTime])
                Hfile c check_interval r) as [msg Hpoll]; try done.
    { rewrite n_requests_at_round. exact Hreply. }
    exists msg, (w ++ [EvTime] ++ rounds k creq check_interval ++ [EvTime] ++ [EvRequest creq]).
    split.
    + apply (wait_abort env (Client.get_bulk_status env c) file_id check_interval
               max_wait creq recs w k Hci); try done.
      * intros j w1 Hj Hn. apply client_poll_record; [done|]. rewrite Hn. by apply Hrecs.
      * rewrite Hpoll. by rewrite <- !app_assoc.
    + rewrite !n_requests_app, n_requests_rounds.
      change (n_requests [EvTime]) with 0%nat.
      change (n_requests [EvRequest creq]) with 1%nat. lia.
  - destruct (legacy_poll_once_not_a_record env file_id
                (w ++ [EvTime] ++ rounds k lreq check_interval ++ [EvTime])
                Hfile l check_interval r) as [msg Hpoll]; try done.
    { rewrite n_requests_at_round. exact Hreply. }
    exists msg, (w ++ [EvTime] ++ rounds k lreq check_interval ++ [EvTime] ++ [EvRequest lreq]).
    split.
    + apply (wait_abort env (Legacy.get_bulk_status env l) file_id check_interval
               max_wait lreq recs w k Hci); try done.
      * intros j w1 Hj Hn. apply legacy_poll_record; [done|]. rewrite Hn. by apply Hrecs.
      * rewrite Hpoll. by rewrite <- !app_assoc.
    + rewrite !n_requests_app, n_requests_rounds.
      change (n_requests [EvTime]) with 0%nat.
      change (n_requests [EvRequest lreq]) with 1%nat. lia.
Qed.

Lemma wait_reply_not_a_record_witness :
  let env := Sample.scripted [Responded (Sample.ok_text "processing")] [0%Q; 1%Q] 2 in
  exists msg w',
    Client.wait_for_bulk_completion env Sample.client 1 "f-1" 10 3600 []
      = Some (Raise (AttributeError msg), w') /\
    n_requests w' = (n_requests [] + 1)%nat.
Proof.
  intros env.
  refine (proj1 (wait_reply_not_a_record env Sample.client Sample.legacy "f-1" 10 3600
                   (fun _ => Sample.processing) [] 0 1 (Sample.ok_text "processing")
                   _ _ _ _ _ _ _ _ _ _)).
  - discriminate.
  - discriminate.
  - intros j Hj. lia.
  - intros j Hj. lia.
  - reflexivity.
  - intros req. reflexivity.
  - discriminate.
  - reflexivity.
  - intros d. discriminate.
  - apply le_n.
Defined.

(** ** Verifying in batches *)

Lemma chunks_concat {A} (s : nat) : forall (m : nat) (l : list A),
  (length l <= m * s)%nat ->
  concat ((fun k => take s (drop (k * s) l)) <$> seq 0 m) = l.
Proof.
  induction m as [|m IH]; intros l Hlen.
  - destruct l; [done|simpl in Hlen; lia].
  - change (seq 0 (S m)) with (0%nat :: seq 1 m).
    rewrite <- fmap_S_seq, fmap_cons, <- list_fmap_compose. simpl concat.
    transitivity (take s l ++ drop s l); [|apply take_drop]. f_equal.
    rewrite <- (IH (drop s l)) by (rewrite length_drop; lia).
    f_equal. apply list_fmap_ext. intros i k _. simpl.
    by rewrite drop_drop.
Qed.

Lemma range_covers (n : nat) (step : Z) :
  (0 < step)%Z ->
  (n <= range_length 0 (Z.of_nat n) step * Z.to_nat step)%nat.
Proof.
  intros Hstep. unfold range_length. rewrite (proj2 (Z.ltb_lt _ _) Hstep).
  replace (Z.of_nat n - 0 + step - 1)%Z with (Z.of_nat n + step - 1)%Z by lia.
  set (q := ((Z.of_nat n + step - 1) / step)%Z).
  assert (Hq : (Z.of_nat n <= q * step)%Z).
  { pose proof (Z.div_mod (Z.of_nat n + step - 1) step ltac:(lia)) as Hdm.
    pose proof (Z.mod_pos_bound (Z.of_nat n + step - 1) step Hstep) as Hmod.
    fold q in Hdm. lia. }
  assert (0 <= q)%Z by (apply Z.div_pos; lia).
  rewrite <- Z2Nat.inj_mul by lia. lia.
Qed.

Lemma range_negative_step (n : nat) (step : Z) :
  (step < 0)%Z -> range_length 0 (Z.of_nat n) step = 0%nat.
Proof.
  intros Hstep. unfold range_length.
  rewrite (proj2 (Z.ltb_ge _ _)) by lia.
  assert ((0 - Z.of_nat n - step - 1) / - step < 1)%Z; [|lia].
  apply Z.div_lt_upper_bound; lia.
Qed.

Section Batches.
Context (env : Env) (l : Legacy.t) (cal : Calendar).

Lemma legacy_verify_email_sdk_only email : raises_sdk_only (Legacy.verify_email env l cal email).
Proof.
  intros w. destruct (decide (email = "")) as [->|He]; [done|].
  rewrite (legacy_verify_email_run env cal l email w He). cbv zeta.
  rewrite legacy_make_request_result.
  destruct (http env _ _) as [r|cause]; [|done].
  destruct (raise_for_status r); [done|].
  by destruct (default _ _) as [| | | | | |].
Qed.

Lemma batch_items_app batch1 : forall batch2 results w,
  Legacy.verify_batch_items env l cal results (batch1 ++ batch2) w
  = match Legacy.verify_batch_items env l cal results batch1 w with
    | (Ok results', w') => Legacy.verify_batch_items env l cal results' batch2 w'
    | (Raise e, w') => (Raise e, w')
    end.
Proof.
  induction batch1 as [|email batch1 IH]; intros batch2 results w; [done|].
  cbn [app Legacy.verify_batch_items]. unfold bind.
  destruct (try_except_sdk _ _ w) as [[results'|e] w1]; simpl; [apply IH|done].
Qed.

Lemma batch_from_concat emails step starts : forall results w,
  Legacy.verify_batch_from env l cal results starts emails step w
  = Legacy.verify_batch_items env l cal results
      (concat ((fun i => py_slice emails i (i + step)) <$> starts)) w.
Proof.
  induction starts as [|i starts IH]; intros results w; [done|].
  cbn [Legacy.verify_batch_from fmap list_fmap concat]. unfold bind.
  rewrite batch_items_app.
  destruct (Legacy.verify_batch_items _ _ _ _ _ _) as [[results'|e] w1]; [apply IH|done].
Qed.

(** A positive batch size does not show: the batches are the list, cut up. *)
Lemma batch_size_irrelevant emails step w :
  (0 < step)%Z ->
  Legacy.verify_batch env l cal emails step w
  = Legacy.verify_batch_items env l cal [] emails w.
Proof.
  intros Hstep. unfold Legacy.verify_batch, py_range, bind.
  rewrite (proj2 (Z.eqb_neq _ _)) by lia. unfold ret at 1.
  rewrite batch_from_concat, <- list_fmap_compose. f_equal.
  rewrite <- (chunks_concat (Z.to_nat step) (range_length 0 (Z.of_nat (length emails)) step)
                emails) at 2 by (by apply range_covers).
  f_equal. apply list_fmap_ext. intros i k _. simpl. unfold py_slice.
  f_equal; [|f_equal].
  - f_equal. lia.
  - rewrite Z.add_0_l, Z2Nat.inj_mul, Nat2Z.id by lia. done.
Qed.

Lemma batch_items_spec batch : forall results w,
  exists new w',
    Legacy.verify_batch_items env l cal results batch w = (Ok (results ++ new), w') /\
    batch_run env l cal batch w new w'.
Proof.
  induction batch as [|email batch IH]; intros results w.
  - exists [], w. split; [by rewrite app_nil_r|constructor].
  - cbn [Legacy.verify_batch_items]. unfold bind at 1. unfold try_except_sdk, bind.
    pose proof (legacy_verify_email_sdk_only email w) as Honly.
    destruct (Legacy.verify_email env l cal email w) as [[v|e] w1] eqn:Hv; simpl in Honly.
    + change (time_sleep (1 # 10) w1) with (@Ok unit tt, w1 ++ [EvSleep (1 # 10)]).
      unfold ret at 1.
      destruct (IH (results ++ [v]) (w1 ++ [EvSleep (1 # 10)]))
        as (new & w' & Hrun & Hnew).
      exists (v :: new), w'. split.
      * rewrite Hrun. by rewrite <- app_assoc.
      * by eapply batch_verified.
    + destruct e as [msg| | | | |]; try done.
      unfold now_isoformat, ret at 1.
      destruct (IH (results ++ [Legacy.error_record email msg (isoformat_now cal (n_now w1))])
                  (w1 ++ [EvNow])) as (new & w' & Hrun & Hnew).
      eexists (_ :: new), w'. split.
      * rewrite Hrun. by rewrite <- app_assoc.
      * by eapply batch_failed.
Qed.

Lemma batch_run_length emails : forall w results w',
  batch_run env l cal emails w results w' -> length results = length emails.
Proof.
  induction emails as [|email emails IH]; intros w results w' Hrun;
    inversion Hrun; subst; simpl; [done| |]; f_equal; by eapply IH.
Qed.

(** The pass is a function of the emails and of the world it starts in. *)
Lemma batch_run_unique emails : forall w results1 w1 results2 w2,
  batch_run env l cal emails w results1 w1 ->
  batch_run env l cal emails w results2 w2 ->
  results1 = results2 /\ w1 = w2.
Proof.
  induction emails as [|email emails IH]; intros w results1 w1 results2 w2 H1 H2;
    inversion H1; subst; inversion H2; subst; try done; try congruence.
  all: match goal with
       | Ha : ?call = _, Hb : ?call = _ |- _ =>
           rewrite Ha in Hb; injection Hb as Hv Hw; subst
       end.
  all: match goal with
       | Hx : batch_run _ _ _ _ ?u _ _, Hy : batch_run _ _ _ _ ?u _ _ |- _ =>
           destruct (IH _ _ _ _ _ Hx Hy) as [Hr Hu]; subst; done
       end.
Qed.

End Batches.

(** X14: with a positive [max_batch_size], [verify_batch] does what one pass
    over the whole list does, whatever the size; it never raises, and it
    returns one result per email, in the order of the list. The results and
    the events are those of the pass that calls [verify_email] for each email
    in turn, in the world left by the emails before it: the value returned,
    followed by a pause of 0.1 s, or, for an SDK error, the error record with
    the email, the message of that error and the calendar reading taken at
    that moment, with no pause. No other list of results and no other final
    world fits that pass. *)
Theorem verify_batch_results env (l : Legacy.t) (cal : Calendar)
    (emails : list string) (max_batch_size : Z) (w : World) :
  (0 < max_batch_size)%Z ->
  Legacy.verify_batch env l cal emails max_batch_size w
    = Legacy.verify_batch_items env l cal [] emails w /\
  exists results w',
    Legacy.verify_batch env l cal emails max_batch_size w = (Ok results, w') /\
    length results = length emails /\
    batch_run env l cal emails w results w' /\
    forall results2 w2, batch_run env l cal emails w results2 w2 ->
                        results2 = results /\ w2 = w'.
Proof.
  intros Hsize.
  rewrite (batch_size_irrelevant env l cal emails max_batch_size w Hsize).
  split; [done|].
  destruct (batch_items_spec env l cal emails [] w) as (new & w' & Hrun & Hnew).
  exists new, w'. split; [done|]. split; [by eapply batch_run_length|].
  split; [done|]. intros results2 w2 H2.
  by eapply batch_run_unique.
Qed.

Lemma verify_batch_results_witness :
  let env := Sample.scripted
               [Responded (Sample.ok_text "ok"); TransportFailure "connection reset";
                Responded (Sample.ok_text "unknown")] [] 0 in
  let cal := {| isoformat_now := fun _ => "2024-01-01T12:00:00" |} in
  let emails := ["a@x.com"; "b@x.com"; "c@x.com"] in
  Legacy.verify_batch env Sample.legacy cal emails 2 []
    = Legacy.verify_batch_items env Sample.legacy cal [] emails [] /\
  exists results w',
    Legacy.verify_batch env Sample.legacy cal emails 2 [] = (Ok results, w') /\
    length results = length emails /\
    batch_run env Sample.legacy cal emails [] results w' /\
    forall results2 w2, batch_run env Sample.legacy cal emails [] results2 w2 ->
                        results2 = results /\ w2 = w'.
Proof.
  intros env cal emails.
  apply (verify_batch_results env Sample.legacy cal emails 2 []).
  reflexivity.
Defined.

(** X15: a [max_batch_size] of zero makes [verify_batch] raise ValueError
    before any request, and a negative one makes it return the empty list
    without verifying any email. *)
Theorem verify_batch_bad_size env (l : Legacy.t) (cal : Calendar)
    (emails : list string) (max_batch_size : Z) (w : World) :
  (max_batch_size = 0%Z ->
   exists msg, Legacy.verify_batch env l cal emails max_batch_size w
               = (Raise (ValueError msg), w)) /\
  ((max_batch_size < 0)%Z ->
   Legacy.verify_batch env l cal emails max_batch_size w = (Ok [], w)).
Proof.
  split.
  - intros ->. by eexists.
  - intros Hneg. unfold Legacy.verify_batch, py_range, bind.
    rewrite (proj2 (Z.eqb_neq _ _)) by lia. unfold ret at 1.
    by rewrite range_negative_step.
Qed.

Lemma verify_batch_bad_size_witness :
  let env := Sample.scripted [Responded (Sample.ok_text "ok")] [] 0 in
  let cal := {| isoformat_now := fun _ => "2024-01-01T12:00:00" |} in
  Legacy.verify_batch env Sample.legacy cal ["a@x.com"; "b@x.com"] (-1) [] = (Ok [], []).
Proof.
  intros env cal.
  apply (verify_batch_bad_size env Sample.legacy cal ["a@x.com"; "b@x.com"] (-1) []).
  reflexivity.
Defined.

(** ** The polling loop under a clock that the sleeps advance *)

Section AdvancingClock.
Context (env : Env) (check_interval max_wait : Z) (w : World).
Hypothesis Hpositive : (0 < check_interval)%Z.
Hypothesis Hstart : (clock env (n_time w) <= clock env (n_time w + 1))%Q.
Hypothesis Hadvance : forall j,
  (clock env (n_time w + 1 + j) + inject_Z check_interval
   <= clock env (n_time w + 1 + S j))%Q.

Lemma elapsed_lower j :
  (inject_Z (Z.of_nat j * check_interval)
   <= clock env (n_time w + 1 + j) - clock env (n_time w))%Q.
Proof using Hstart Hadvance.
  induction j as [|j IH].
  - rewrite Nat.add_0_r. simpl.
    apply (proj1 (Qle_minus_iff _ _)) in Hstart. exact Hstart.
  - replace (Z.of_nat (S j) * check_interval)%Z
      with (Z.of_nat j * check_interval + check_interval)%Z by lia.
    rewrite inject_Z_plus. pose proof (Hadvance j) as Hj.
    apply Qle_trans with
      (clock env (n_time w + 1 + j) - clock env (n_time w) + inject_Z check_interval)%Q.
    + by apply Qplus_le_l.
    + unfold Qminus. rewrite <- Qplus_assoc.
      rewrite (Qplus_comm (- clock env (n_time w))), Qplus_assoc.
      by apply Qplus_le_l.
Qed.

Lemma bound_reached :
  within env (n_time w) max_wait (Z.to_nat (max_wait / check_interval) + 1) = false.
Proof using Hpositive Hstart Hadvance.
  apply Qltb_false.
  eapply Qle_trans; [|apply elapsed_lower].
  rewrite <- Zle_Qle.
  pose proof (Z.div_mod max_wait check_interval ltac:(lia)) as Hdm.
  pose proof (Z.mod_pos_bound max_wait check_interval Hpositive) as Hmod.
  destruct (Z.le_gt_cases 0 (max_wait / check_interval)) as [Hq|Hq].
  - rewrite Nat2Z.inj_add, Z2Nat.id by done. nia.
  - rewrite Z2Nat.nonpos by lia. simpl. nia.
Qed.

Lemma polls_within_budget k :
  within env (n_time w) max_wait k = true ->
  (Z.of_nat k * check_interval < max_wait)%Z.
Proof using Hstart Hadvance.
  intros Hin%Qltb_true. rewrite Zlt_Qlt.
  eapply Qle_lt_trans; [apply elapsed_lower|exact Hin].
Qed.

End AdvancingClock.

(** X16: when the clock does not run backwards before the first test and
    advances by at least [check_interval] (positive) from one test to the
    next, as the sleep between them makes it do, [wait_for_bulk_completion]
    ends, and the [k]-th poll it makes (from 0) satisfies
    [k * check_interval < max_wait]: it makes at most
    [max_wait / check_interval + 1] polls. The polls are assumed to return
    records. *)
Theorem wait_bounded_polls env (c : Client.t) (l : Legacy.t) (file_id : string)
    (check_interval max_wait : Z) (recs : nat -> record) (w : World) (fuel : nat) :
  file_id <> "" ->
  (0 < check_interval)%Z ->
  (forall k, answers_record env (n_requests w + k) (recs k)) ->
  (clock env (n_time w) <= clock env (n_time w + 1))%Q ->
  (forall j, (clock env (n_time w + 1 + j) + inject_Z check_interval
              <= clock env (n_time w + 1 + S j))%Q) ->
  (Z.to_nat (max_wait / check_interval) + 1 < fuel)%nat ->
  (exists res w',
     Client.wait_for_bulk_completion env c fuel file_id check_interval max_wait w
       = Some (res, w') /\
     forall k, (k < n_requests w' - n_requests w)%nat ->
               (Z.of_nat k * check_interval < max_wait)%Z) /\
  (exists res w',
     Legacy.wait_for_bulk_completion env l fuel file_id check_interval max_wait w
       = Some (res, w') /\
     forall k, (k < n_requests w' - n_requests w)%nat ->
               (Z.of_nat k * check_interval < max_wait)%Z).
Proof.
  intros Hfile Hci Hrecs Hstart Hadv Hfuel.
  pose proof (bound_reached env check_interval max_wait w Hci Hstart Hadv) as Hout.
  split.
  - destruct (wait_verdict_holds env (Client.get_bulk_status env c) file_id
                check_interval max_wait
                (Client.build_request c "getApiFileInfo" "GET"
                   (Some {["file_id" := file_id]}) None None)
                recs w ltac:(lia) (fun k w1 => client_poll env file_id recs w Hfile Hrecs c k w1)
                (Z.to_nat (max_wait / check_interval) + 1) fuel)
      as (res & w' & Hrun & Hin & _); [by rewrite Hout|done|].
    exists res, w'. split; [done|]. intros k Hk.
    apply (polls_within_budget env check_interval max_wait w Hstart Hadv).
    by apply Hin in Hk as [Hk _].
  - destruct (wait_verdict_holds env (Legacy.get_bulk_status env l) file_id
                check_interval max_wait
                (Legacy.build_request l "getApiFileInfo" "GET"
                   (Some {["file_id" := file_id]}) None None)
                recs w ltac:(lia) (fun k w1 => legacy_poll env file_id recs w Hfile Hrecs l k w1)
                (Z.to_nat (max_wait / check_interval) + 1) fuel)
      as (res & w' & Hrun & Hin & _); [by rewrite Hout|done|].
    exists res, w'. split; [done|]. intros k Hk.
    apply (polls_within_budget env check_interval max_wait w Hstart Hadv).
    by apply Hin in Hk as [Hk _].
Qed.

Lemma wait_bounded_polls_witness :
  let env := Sample.polling (fun _ => Sample.processing) 10 in
  exists res w',
    Client.wait_for_bulk_completion env Sample.client 4 "f-1" 10 25 [] = Some (res, w') /\
    forall k, (k < n_requests w' - n_requests [])%nat -> (Z.of_nat k * 10 < 25)%Z.
Proof.
  intros env.
  refine (proj1 (wait_bounded_polls env Sample.client Sample.legacy "f-1" 10 25
                   (fun _ => Sample.processing) [] 4 _ _ _ _ _ _)).
  - discriminate.
  - reflexivity.
  - intros k. exists (Sample.ok_json (JObj Sample.processing)).
    split; [intros req; reflexivity|]. split; [discriminate|]. split; reflexivity.
  - discriminate.
  - intros j. unfold env. simpl. rewrite <- inject_Z_plus, <- Zle_Qle. lia.
  - apply le_n.
Defined.

(** ** A refused key under [verify_emails] *)

Lemma last_entry_in email entries v :
  last_entry email entries = Some v -> email ∈ entries.*1.
Proof.
  revert v. induction entries as [|[k x] entries IH]; intros v; simpl; [done|].
  destruct (last_entry email entries) as [v'|].
  - intros _. apply elem_of_cons. right. by apply (IH v').
  - destruct (decide (k = email)) as [->|]; [|done]. intros _.
    apply elem_of_cons. by left.
Qed.

Section AllFail.
Context (verify_email : string -> M string) (delay : Q) (msg : string).
Hypothesis Hfail : forall email w,
  email <> "" -> fst (verify_email email w) = Raise (EmailListVerifyError msg).

Lemma processed_all_fail emails w entries w' :
  processed verify_email delay emails w entries w' ->
  entries.*1 = emails /\
  forall e, e ∈ emails -> e <> "" -> last_entry e entries = Some ("error: " +:+ msg).
Proof using Hfail.
  induction 1 as [w|email rest w status w1 entries w' Hv Hrest [Hkeys IH]
                 |email rest w msg' w1 entries w' Hv Hrest [Hkeys IH]].
  - split; [done|]. intros e He. by apply elem_of_nil in He.
  - split; [by rewrite <- Hkeys|].
    intros e He Hne. simpl.
    assert (Hempty : email = "").
    { destruct (decide (email = "")) as [|Hn]; [done|].
      pose proof (Hfail email w Hn) as Hf. rewrite Hv in Hf. discriminate. }
    apply elem_of_cons in He as [->|He]; [done|].
    by rewrite (IH e He Hne).
  - split; [by rewrite <- Hkeys|].
    intros e He Hne. simpl.
    destruct (last_entry e entries) as [v|] eqn:Hlast.
    + pose proof (last_entry_in _ _ _ Hlast) as Hin. rewrite Hkeys in Hin.
      rewrite <- Hlast. by apply IH.
    + apply elem_of_cons in He as [->|He].
      * destruct (decide (email = email)); [|done].
        pose proof (Hfail email w Hne) as Hf. rewrite Hv in Hf.
        by injection Hf as ->.
      * rewrite (IH e He Hne) in Hlast. discriminate.
Qed.

End AllFail.

(** X17: a key that the service refuses does not stop [verify_emails] of
    client.py: when every request is answered with status 401, it still makes
    one request per email that is not empty, and returns a mapping in which
    each of these emails has the unauthorized error as its entry. *)
Theorem verify_emails_unauthorized env (c : Client.t) (emails : list string)
    (delay : Q) (w : World) :
  (forall n req, exists r, http env n req = Responded r /\ status_code r = 401%Z) ->
  exists results,
    fst (Client.verify_emails env c emails delay w) = Ok results /\
    (forall e, e ∈ emails -> e <> "" ->
       results !! e = Some "error: Unauthorized: invalid API key") /\
    n_requests (snd (Client.verify_emails env c emails delay w))
      = (n_requests w + length (filter (fun e => e <> "") emails))%nat.
Proof.
  intros H401.
  assert (Hfail : forall email w0, email <> "" ->
            fst (Client.verify_email env c email w0)
            = Raise (EmailListVerifyError "Unauthorized: invalid API key")).
  { intros email w0 He. rewrite (client_verify_email_run env c email w0 He). simpl.
    rewrite client_make_request_result.
    destruct (H401 (n_requests w0)
                (Client.build_request c "verifyEmail" "GET"
                   (Some {["email" := email]}) None None)) as (r & -> & Hr).
    by rewrite (proj2 (Z.eqb_eq _ _) Hr). }
  destruct (verify_emails_from_spec (Client.verify_email env c) delay
              (client_verify_email_sdk_only env c) emails ∅ w)
    as (entries & results & w' & Hrun & Hproc & _ & Hlook).
  exists results. split; [|split].
  - unfold Client.verify_emails, Common.verify_emails. by rewrite Hrun.
  - intros e He Hne. rewrite Hlook.
    destruct (processed_all_fail _ delay _ Hfail emails w entries w' Hproc) as [_ Hall].
    by rewrite (Hall e He Hne).
  - apply (verify_emails_from_cost (Client.verify_email env c) delay
             (client_verify_email_sdk_only env c)
             (fun e w0 => proj1 (client_verify_email_cost env c e w0))
             (fun e w0 => proj2 (client_verify_email_cost env c e w0))
             emails ∅ w).
Qed.

Lemma verify_emails_unauthorized_witness :
  let env := {| http := fun _ _ => Responded Sample.unauthorized;
                clock := fun _ => 0%Q;
                strftime_now := fun _ => "";
                path_exists := fun _ => false;
                file_content := fun _ => None;
                py_repr := fun _ => "" |} in
  exists results,
    fst (Client.verify_emails env Sample.client ["a@x.com"; "b@x.com"] 0 []) = Ok results /\
    (forall e, e ∈ ["a@x.com"; "b@x.com"] -> e <> "" ->
       results !! e = Some "error: Unauthorized: invalid API key") /\
    n_requests (snd (Client.verify_emails env Sample.client ["a@x.com"; "b@x.com"] 0 []))
      = (n_requests [] + length (filter (fun e => e <> "") ["a@x.com"; "b@x.com"]))%nat.
Proof.
  intros env.
  apply (verify_emails_unauthorized env Sample.client ["a@x.com"; "b@x.com"] 0 []).
  intros n req. exists Sample.unauthorized. split; reflexivity.
Defined.
